(** * Ubestream RAG Assistant: the Angular front end, embedded and verified

    The development follows [frontend/src/app/app.component.ts],
    [frontend/src/app/api.service.ts] and the template
    [frontend/src/app/app.component.html].

    Conventions of the embedding.
    - A JavaScript string is a [string]; one [ascii] stands for one code
      unit, so the text covered is U+0000 to U+00FF.
    - A JavaScript number that holds an integer (every [Date.now()] does)
      is a [Z].
    - The component is a record of its fields; the browser around it (the
      storage area, the console, the dialogs, the network) is the rest of
      the [World].  Methods are computations in a state monad over [World]
      that can also throw, as the source uses [try]/[catch].
    - An HTTP call is an effect, recorded when the component subscribes to
      it.  Its [next] and [error] callbacks are computations of their own:
      they run on the world as it is when the response arrives.  What the
      environment decides (the user's answer to a dialog, the clock, whether
      the storage area takes a write) is an argument or a field of the
      world.
    - [JSON.stringify] and [JSON.parse] are written out (ECMA-404 grammar,
      ECMA-262 quoting rules) so that persistence can be executed. *)

From Stdlib Require Import ZArith NArith String Ascii List Lia Bool.
From Stdlib Require Import Sorting.Sorted Sorting.Permutation.
From Stdlib Require Import DecimalString DecimalFacts DecimalN.
From stdpp Require Import gmap strings list.

Local Open Scope Z_scope.

(* ================================================================== *)
(** * JSON values, [JSON.stringify] and [JSON.parse] *)
(* ================================================================== *)

#[local] Unset Elimination Schemes.
Inductive json : Type :=
| JNull
| JBool (b : bool)
| JNum (z : Z)
| JStr (s : string)
| JArr (elements : list json)
| JObj (members : list (string * json)).
#[local] Set Elimination Schemes.

(** The quotation mark, written by its code (U+0022). *)
Definition dquote : ascii := "034"%char.

Definition isDigit (c : ascii) : bool :=
  (48 <=? N_of_ascii c)%N && (N_of_ascii c <=? 57)%N.

(** ** Printing *)

(** One lower-case hexadecimal digit, as [QuoteJSONString] emits them. *)
Definition hexDigit (n : N) : ascii :=
  if (n <? 10)%N then ascii_of_N (48 + n) else ascii_of_N (87 + n).

(** ECMA-262 [QuoteJSONString], one code unit: the quotation mark and the
    backslash are escaped, the five control characters with a short form
    use it, the other code units below U+0020 become [\u00xx], and every
    other code unit is copied. *)
Definition quoteJSONChar (c : ascii) : string :=
  if Ascii.eqb c dquote then String "\" (String dquote "")
  else if Ascii.eqb c "\" then "\\"
  else if Ascii.eqb c "008" then "\b"
  else if Ascii.eqb c "009" then "\t"
  else if Ascii.eqb c "010" then "\n"
  else if Ascii.eqb c "012" then "\f"
  else if Ascii.eqb c "013" then "\r"
  else if (N_of_ascii c <? 32)%N then
    String "\" (String "u" (String "0" (String "0"
      (String (hexDigit (N_of_ascii c / 16))
        (String (hexDigit (N_of_ascii c mod 16)) "")))))
  else String c "".

Fixpoint quoteJSONChars (s : string) : string :=
  match s with
  | EmptyString => ""
  | String c s' => quoteJSONChar c +:+ quoteJSONChars s'
  end.

Definition quoteJSONString (s : string) : string :=
  String dquote (quoteJSONChars s +:+ String dquote "").

(** [Number::toString] on an integer: decimal digits, a leading minus sign
    for a negative one. *)
Definition printN (n : N) : string := NilEmpty.string_of_uint (N.to_uint n).

Definition printZ (z : Z) : string :=
  if z <? 0 then String "-" (printN (Z.to_N (- z))) else printN (Z.to_N z).

Fixpoint joinComma (parts : list string) : string :=
  match parts with
  | [] => ""
  | [p] => p
  | p :: rest => p +:+ String "," (joinComma rest)
  end.

(** [JSON.stringify(v)] without indentation. *)
Fixpoint JSON_stringify (v : json) : string :=
  match v with
  | JNull => "null"
  | JBool true => "true"
  | JBool false => "false"
  | JNum z => printZ z
  | JStr s => quoteJSONString s
  | JArr l => String "[" (joinComma (List.map JSON_stringify l) +:+ "]")
  | JObj m =>
      String "{"
        (joinComma
           (List.map (fun kv => quoteJSONString (fst kv) +:+
                                String ":" (JSON_stringify (snd kv))) m)
         +:+ "}")
  end.

(** ** Parsing *)

(** A parser either returns a value and the unread input, or rejects the
    text (JavaScript throws [SyntaxError]), or meets text that is valid
    JSON but denotes a value this embedding has no term for: a code unit
    above U+00FF, or a number written with a fraction or an exponent. *)
Inductive Parse (A : Type) : Type :=
| POk (a : A) (rest : string)
| PSyntaxError
| PBeyond.
Arguments POk {A} a rest.
Arguments PSyntaxError {A}.
Arguments PBeyond {A}.

Definition pmap {A B} (f : A -> B) (r : Parse A) : Parse B :=
  match r with
  | POk a rest => POk (f a) rest
  | PSyntaxError => PSyntaxError
  | PBeyond => PBeyond
  end.

(** JSON white space: space, tab, line feed, carriage return. *)
Definition isJSONWhite (c : ascii) : bool :=
  Ascii.eqb c " " || Ascii.eqb c "009" || Ascii.eqb c "010" || Ascii.eqb c "013".

Fixpoint skipWhite (s : string) : string :=
  match s with
  | EmptyString => ""
  | String c s' => if isJSONWhite c then skipWhite s' else s
  end.

Definition hexValue (c : ascii) : option N :=
  let n := N_of_ascii c in
  if (48 <=? n)%N && (n <=? 57)%N then Some (n - 48)%N
  else if (97 <=? n)%N && (n <=? 102)%N then Some (n - 87)%N
  else if (65 <=? n)%N && (n <=? 70)%N then Some (n - 55)%N
  else None.

(** The characters of a string literal, after its opening quotation mark,
    up to and including the closing one. *)
Fixpoint parseChars (s : string) : Parse string :=
  match s with
  | EmptyString => PSyntaxError
  | String c s1 =>
    if Ascii.eqb c dquote then POk "" s1
    else if Ascii.eqb c "\" then
      match s1 with
      | EmptyString => PSyntaxError
      | String e s2 =>
        if Ascii.eqb e dquote then pmap (String dquote) (parseChars s2)
        else if Ascii.eqb e "\" then pmap (String "\") (parseChars s2)
        else if Ascii.eqb e "/" then pmap (String "/") (parseChars s2)
        else if Ascii.eqb e "b" then pmap (String "008") (parseChars s2)
        else if Ascii.eqb e "f" then pmap (String "012") (parseChars s2)
        else if Ascii.eqb e "n" then pmap (String "010") (parseChars s2)
        else if Ascii.eqb e "r" then pmap (String "013") (parseChars s2)
        else if Ascii.eqb e "t" then pmap (String "009") (parseChars s2)
        else if Ascii.eqb e "u" then
          match s2 with
          | String h1 (String h2 (String h3 (String h4 s3))) =>
            match hexValue h1, hexValue h2, hexValue h3, hexValue h4 with
            | Some a, Some b, Some c', Some d =>
              let v := (((a * 16 + b) * 16 + c') * 16 + d)%N in
              if (v <? 256)%N then pmap (String (ascii_of_N v)) (parseChars s3)
              else PBeyond
            | _, _, _, _ => PSyntaxError
            end
          | _ => PSyntaxError
          end
        else PSyntaxError
      end
    else if (N_of_ascii c <? 32)%N then PSyntaxError
    else pmap (String c) (parseChars s1)
  end.

Definition digitOf (c : ascii) : option (Decimal.uint -> Decimal.uint) :=
  if Ascii.eqb c "0" then Some Decimal.D0
  else if Ascii.eqb c "1" then Some Decimal.D1
  else if Ascii.eqb c "2" then Some Decimal.D2
  else if Ascii.eqb c "3" then Some Decimal.D3
  else if Ascii.eqb c "4" then Some Decimal.D4
  else if Ascii.eqb c "5" then Some Decimal.D5
  else if Ascii.eqb c "6" then Some Decimal.D6
  else if Ascii.eqb c "7" then Some Decimal.D7
  else if Ascii.eqb c "8" then Some Decimal.D8
  else if Ascii.eqb c "9" then Some Decimal.D9
  else None.

(** The longest run of decimal digits at the head of the input. *)
Fixpoint lexDigits (s : string) : Decimal.uint * string :=
  match s with
  | EmptyString => (Decimal.Nil, "")
  | String c s' =>
    match digitOf c with
    | Some d => let (u, rest) := lexDigits s' in (d u, rest)
    | None => (Decimal.Nil, s)
    end
  end.

(** The optional exponent part of a number: [None] when it is malformed. *)
Definition lexExponent (s : string) : option (bool * string) :=
  match s with
  | String c s1 =>
    if Ascii.eqb c "e" || Ascii.eqb c "E" then
      let s2 := match s1 with
                | String g s2 => if Ascii.eqb g "+" || Ascii.eqb g "-" then s2 else s1
                | EmptyString => s1
                end in
      match lexDigits s2 with
      | (Decimal.Nil, _) => None
      | (_, rest) => Some (true, rest)
      end
    else Some (false, s)
  | EmptyString => Some (false, s)
  end.

(** The optional fraction part of a number: [None] when it is malformed. *)
Definition lexFraction (s : string) : option (bool * string) :=
  match s with
  | String c s1 =>
    if Ascii.eqb c "." then
      match lexDigits s1 with
      | (Decimal.Nil, _) => None
      | (_, rest) => Some (true, rest)
      end
    else Some (false, s)
  | EmptyString => Some (false, s)
  end.

(** A JSON number without its sign: [0] or a digit run that does not start
    with [0], then an optional fraction and an optional exponent. *)
Definition parseUnsigned (s : string) : Parse N :=
  match lexDigits s with
  | (Decimal.Nil, _) => PSyntaxError
  | (Decimal.D0 (Decimal.D0 _ | Decimal.D1 _ | Decimal.D2 _ | Decimal.D3 _
                 | Decimal.D4 _ | Decimal.D5 _ | Decimal.D6 _ | Decimal.D7 _
                 | Decimal.D8 _ | Decimal.D9 _), _) => PSyntaxError
  | (int, s1) =>
    match lexFraction s1 with
    | None => PSyntaxError
    | Some (hasFraction, s2) =>
      match lexExponent s2 with
      | None => PSyntaxError
      | Some (hasExponent, s3) =>
        if hasFraction || hasExponent then PBeyond
        else POk (N.of_uint int) s3
      end
    end
  end.

(** The rest of a keyword whose first letter has been read. *)
Fixpoint expect (word : string) (s : string) : option string :=
  match word, s with
  | EmptyString, _ => Some s
  | String w word', String c s' => if Ascii.eqb w c then expect word' s' else None
  | String _ _, EmptyString => None
  end.

Definition keyword {A} (word : string) (s : string) (v : A) : Parse A :=
  match expect word s with
  | Some rest => POk v rest
  | None => PSyntaxError
  end.

(** Recursive descent.  The fuel bounds the recursion; [JSON_parse] below
    supplies more than any input consumes, and [PBeyond] is the answer if
    it ever ran out. *)
Fixpoint parseValue (fuel : nat) (s : string) : Parse json :=
  match fuel with
  | O => PBeyond
  | S fuel' =>
    match skipWhite s with
    | EmptyString => PSyntaxError
    | String c s1 =>
      if isDigit c then pmap (fun n => JNum (Z.of_N n)) (parseUnsigned (String c s1))
      else if Ascii.eqb c "-" then pmap (fun n => JNum (- Z.of_N n)) (parseUnsigned s1)
      else if Ascii.eqb c dquote then pmap JStr (parseChars s1)
      else if Ascii.eqb c "n" then keyword "ull" s1 JNull
      else if Ascii.eqb c "t" then keyword "rue" s1 (JBool true)
      else if Ascii.eqb c "f" then keyword "alse" s1 (JBool false)
      else if Ascii.eqb c "[" then
        match skipWhite s1 with
        | String c2 s2 =>
          if Ascii.eqb c2 "]" then POk (JArr []) s2
          else pmap JArr (parseElements fuel' s1)
        | EmptyString => PSyntaxError
        end
      else if Ascii.eqb c "{" then
        match skipWhite s1 with
        | String c2 s2 =>
          if Ascii.eqb c2 "}" then POk (JObj []) s2
          else pmap JObj (parseMembers fuel' s1)
        | EmptyString => PSyntaxError
        end
      else PSyntaxError
    end
  end

with parseElements (fuel : nat) (s : string) : Parse (list json) :=
  match fuel with
  | O => PBeyond
  | S fuel' =>
    match parseValue fuel' s with
    | POk v s1 =>
      match skipWhite s1 with
      | String c s2 =>
        if Ascii.eqb c "," then pmap (cons v) (parseElements fuel' s2)
        else if Ascii.eqb c "]" then POk [v] s2
        else PSyntaxError
      | EmptyString => PSyntaxError
      end
    | PSyntaxError => PSyntaxError
    | PBeyond => PBeyond
    end
  end

with parseMembers (fuel : nat) (s : string) : Parse (list (string * json)) :=
  match fuel with
  | O => PBeyond
  | S fuel' =>
    match skipWhite s with
    | String q s1 =>
      if Ascii.eqb q dquote then
        match parseChars s1 with
        | POk key s2 =>
          match skipWhite s2 with
          | String colon s3 =>
            if Ascii.eqb colon ":" then
              match parseValue fuel' s3 with
              | POk v s4 =>
                match skipWhite s4 with
                | String c s5 =>
                  if Ascii.eqb c "," then pmap (cons (key, v)) (parseMembers fuel' s5)
                  else if Ascii.eqb c "}" then POk [(key, v)] s5
                  else PSyntaxError
                | EmptyString => PSyntaxError
                end
              | PSyntaxError => PSyntaxError
              | PBeyond => PBeyond
              end
            else PSyntaxError
          | EmptyString => PSyntaxError
          end
        | PSyntaxError => PSyntaxError
        | PBeyond => PBeyond
        end
      else PSyntaxError
    | EmptyString => PSyntaxError
    end
  end.

(** [JSON.parse(text)]: one value, with nothing but white space after it. *)
Definition JSON_parse (text : string) : Parse json :=
  match parseValue (2 * String.length text + 2) text with
  | POk v rest =>
    match skipWhite rest with
    | EmptyString => POk v ""
    | String _ _ => PSyntaxError
    end
  | PSyntaxError => PSyntaxError
  | PBeyond => PBeyond
  end.

(* ================================================================== *)
(** * The data model of [app.component.ts] *)
(* ================================================================== *)

(** [interface AnswerHistoryItem]. *)
Module AnswerHistoryItem.
Record t : Type := mk {
  question : string;
  answer : string;
  inferenceTime : string;
  timestamp : Z   (* Unix timestamp for sorting by time *)
}.
End AnswerHistoryItem.

(** The four values of [currentSort]. *)
Inductive SortMode : Type := time_desc | time_asc | alpha_asc | alpha_desc.

(** The fields of [class AppComponent]. *)
Record AppComponent : Type := {
  title : string;
  question : string;
  answer : string;
  inferenceTime : string;
  isLoading : bool;
  apiStatus : string;
  errorMessage : string;
  answerHistory : list AnswerHistoryItem.t;
  filteredHistory : list AnswerHistoryItem.t;
  currentSort : SortMode;
  historyLimit : Z
}.

(** The component as its field initialisers leave it. *)
Definition newAppComponent : AppComponent := {|
  title := "Ubestream RAG Assistant";
  question := "";
  answer := "";
  inferenceTime := "";
  isLoading := false;
  apiStatus := "Checking...";
  errorMessage := "";
  answerHistory := [];
  filteredHistory := [];
  currentSort := time_desc;
  historyLimit := 10
|}.

Definition set_question (v : string) (c : AppComponent) : AppComponent :=
  {| title := title c; question := v; answer := answer c;
     inferenceTime := inferenceTime c; isLoading := isLoading c;
     apiStatus := apiStatus c; errorMessage := errorMessage c;
     answerHistory := answerHistory c; filteredHistory := filteredHistory c;
     currentSort := currentSort c; historyLimit := historyLimit c |}.

Definition set_answer (v : string) (c : AppComponent) : AppComponent :=
  {| title := title c; question := question c; answer := v;
     inferenceTime := inferenceTime c; isLoading := isLoading c;
     apiStatus := apiStatus c; errorMessage := errorMessage c;
     answerHistory := answerHistory c; filteredHistory := filteredHistory c;
     currentSort := currentSort c; historyLimit := historyLimit c |}.

Definition set_inferenceTime (v : string) (c : AppComponent) : AppComponent :=
  {| title := title c; question := question c; answer := answer c;
     inferenceTime := v; isLoading := isLoading c;
     apiStatus := apiStatus c; errorMessage := errorMessage c;
     answerHistory := answerHistory c; filteredHistory := filteredHistory c;
     currentSort := currentSort c; historyLimit := historyLimit c |}.

Definition set_isLoading (v : bool) (c : AppComponent) : AppComponent :=
  {| title := title c; question := question c; answer := answer c;
     inferenceTime := inferenceTime c; isLoading := v;
     apiStatus := apiStatus c; errorMessage := errorMessage c;
     answerHistory := answerHistory c; filteredHistory := filteredHistory c;
     currentSort := currentSort c; historyLimit := historyLimit c |}.

Definition set_apiStatus (v : string) (c : AppComponent) : AppComponent :=
  {| title := title c; question := question c; answer := answer c;
     inferenceTime := inferenceTime c; isLoading := isLoading c;
     apiStatus := v; errorMessage := errorMessage c;
     answerHistory := answerHistory c; filteredHistory := filteredHistory c;
     currentSort := currentSort c; historyLimit := historyLimit c |}.

Definition set_errorMessage (v : string) (c : AppComponent) : AppComponent :=
  {| title := title c; question := question c; answer := answer c;
     inferenceTime := inferenceTime c; isLoading := isLoading c;
     apiStatus := apiStatus c; errorMessage := v;
     answerHistory := answerHistory c; filteredHistory := filteredHistory c;
     currentSort := currentSort c; historyLimit := historyLimit c |}.

Definition set_answerHistory (v : list AnswerHistoryItem.t) (c : AppComponent)
  : AppComponent :=
  {| title := title c; question := question c; answer := answer c;
     inferenceTime := inferenceTime c; isLoading := isLoading c;
     apiStatus := apiStatus c; errorMessage := errorMessage c;
     answerHistory := v; filteredHistory := filteredHistory c;
     currentSort := currentSort c; historyLimit := historyLimit c |}.

Definition set_filteredHistory (v : list AnswerHistoryItem.t) (c : AppComponent)
  : AppComponent :=
  {| title := title c; question := question c; answer := answer c;
     inferenceTime := inferenceTime c; isLoading := isLoading c;
     apiStatus := apiStatus c; errorMessage := errorMessage c;
     answerHistory := answerHistory c; filteredHistory := v;
     currentSort := currentSort c; historyLimit := historyLimit c |}.

Definition set_currentSort (v : SortMode) (c : AppComponent) : AppComponent :=
  {| title := title c; question := question c; answer := answer c;
     inferenceTime := inferenceTime c; isLoading := isLoading c;
     apiStatus := apiStatus c; errorMessage := errorMessage c;
     answerHistory := answerHistory c; filteredHistory := filteredHistory c;
     currentSort := v; historyLimit := historyLimit c |}.

(* ================================================================== *)
(** * The browser around the component *)
(* ================================================================== *)

(** What a [try] block of the component can catch. *)
Inductive Exn : Type := SyntaxError | TypeError | QuotaExceededError.

(** The error object an HTTP observable fails with. *)
Record HttpErrorResponse : Type := {
  http_status : Z;
  http_statusText : string
}.

Inductive LogArg : Type :=
| LStr (s : string)
| LNum (n : Z)
| LExn (e : Exn)
| LHttp (e : HttpErrorResponse).

(** What the component does to the outside, in the order it does it. *)
Inductive Effect : Type :=
| ConsoleLog (args : list LogArg)
| ConsoleError (args : list LogArg)
| Confirm (message : string) (accepted : bool)
| HttpGet (url : string)
| HttpPost (url : string) (body : json).

(** [window.localStorage]: the stored items, and whether the area takes a
    given write.  [setItem] throws [QuotaExceededError] when it does not
    (a full area, or one with no quota at all). *)
Record Storage : Type := {
  items : gmap string string;
  accepts : string -> string -> bool
}.

Record World : Type := {
  this : AppComponent;
  localStorage : Storage;
  effects : list Effect
}.

(** How a computation ends: normally, by an exception, or at a value the
    typed embedding has no term for (see [typedHistory] below). *)
Inductive Outcome (A : Type) : Type :=
| Normal (a : A)
| Throws (e : Exn)
| Unmodelled.
Arguments Normal {A} a.
Arguments Throws {A} e.
Arguments Unmodelled {A}.

Definition M (A : Type) : Type := World -> Outcome A * World.

#[export] Instance M_ret : MRet M := fun A a w => (Normal a, w).

#[export] Instance M_bind : MBind M := fun A B f m w =>
  match m w with
  | (Normal a, w') => f a w'
  | (Throws e, w') => (Throws e, w')
  | (Unmodelled, w') => (Unmodelled, w')
  end.

Definition throw {A} (e : Exn) : M A := fun w => (Throws e, w).

Definition unmodelled {A} : M A := fun w => (Unmodelled, w).

(** [try { body } catch (e) { handler }]. *)
Definition try_catch {A} (body : M A) (handler : Exn -> M A) : M A := fun w =>
  match body w with
  | (Throws e, w') => handler e w'
  | r => r
  end.

(** A sequence of statements. *)
Fixpoint block (stmts : list (M unit)) : M unit :=
  match stmts with
  | [] => mret tt
  | s :: rest => s ;; block rest
  end.

(** Reading and writing the fields of [this]. *)
Definition get {A} (field : AppComponent -> A) : M A :=
  fun w => (Normal (field (this w)), w).

Definition assign (update : AppComponent -> AppComponent) : M unit := fun w =>
  (Normal tt, {| this := update (this w); localStorage := localStorage w;
                 effects := effects w |}).

Definition emit (e : Effect) : M unit := fun w =>
  (Normal tt, {| this := this w; localStorage := localStorage w;
                 effects := effects w ++ [e] |}).

Definition console_log (args : list LogArg) : M unit := emit (ConsoleLog args).
Definition console_error (args : list LogArg) : M unit := emit (ConsoleError args).

(** [confirm(message)]: the dialog is shown and the user's choice returned. *)
Definition confirm (message : string) (userAccepts : bool) : M bool :=
  emit (Confirm message userAccepts) ;; mret userAccepts.

Definition localStorage_getItem (key : string) : M (option string) :=
  fun w => (Normal (items (localStorage w) !! key), w).

Definition localStorage_setItem (key value : string) : M unit := fun w =>
  if accepts (localStorage w) key value then
    (Normal tt, {| this := this w;
                   localStorage := {| items := <[key := value]> (items (localStorage w));
                                      accepts := accepts (localStorage w) |};
                   effects := effects w |})
  else (Throws QuotaExceededError, w).

Definition localStorage_removeItem (key : string) : M unit := fun w =>
  (Normal tt, {| this := this w;
                 localStorage := {| items := delete key (items (localStorage w));
                                    accepts := accepts (localStorage w) |};
                 effects := effects w |}).

(* ================================================================== *)
(** * [api.service.ts] *)
(* ================================================================== *)

Module ApiService.
Definition apiUrl : string := "http://192.168.0.103:8006".

(** [http.post(`${apiUrl}/ask`, { query })], sent when the caller
    subscribes to it. *)
Definition askQuestion (query : string) : M unit :=
  emit (HttpPost (apiUrl +:+ "/ask") (JObj [("query", JStr query)])).

(** [http.get(`${apiUrl}/status`)]. *)
Definition checkStatus : M unit :=
  emit (HttpGet (apiUrl +:+ "/status")).
End ApiService.

(** A field of a response body ([Observable<any>]).  The interface has
    strings there; the values JSON can carry that JavaScript treats as
    false are listed too, because the component replaces them by a default
    text. *)
Inductive Field : Type :=
| FAbsent            (* no such property: [undefined] *)
| FNull              (* [null] *)
| FFalse             (* [false] *)
| FZero              (* [0] *)
| FText (s : string).

(** [ToBoolean]. *)
Definition truthy (f : Field) : bool :=
  match f with
  | FText s => negb (String.eqb s "")
  | _ => false
  end.

(** [f || fallback]. *)
Definition orElse (f : Field) (fallback : string) : string :=
  match f with
  | FText s => if String.eqb s "" then fallback else s
  | _ => fallback
  end.

(** [f === text]. *)
Definition strictEquals (f : Field) (text : string) : bool :=
  match f with
  | FText s => String.eqb s text
  | _ => false
  end.

Module AskResponse.
Record t : Type := mk { answer : Field; inference_time : Field }.
End AskResponse.

Module StatusResponse.
Record t : Type := mk { status : Field; message : Field }.
End StatusResponse.

(* ================================================================== *)
(** * Library functions the component calls *)
(* ================================================================== *)

(** [Array.prototype.sort(comparefn)].  The sort is stable (ECMAScript
    2019), and every stable sort returns the same array for a consistent
    [comparefn]; insertion from the right is one.  An element moves in
    front of the first later element it does not compare greater than. *)
Section ArraySort.
Context {A : Type} (comparefn : A -> A -> Z).

Fixpoint insertInOrder (x : A) (sorted : list A) : list A :=
  match sorted with
  | [] => [x]
  | y :: rest =>
    if comparefn x y <=? 0 then x :: y :: rest
    else y :: insertInOrder x rest
  end.

Fixpoint Array_sort (l : list A) : list A :=
  match l with
  | [] => []
  | x :: rest => insertInOrder x (Array_sort rest)
  end.
End ArraySort.

(** [String.prototype.trim]: the white space and line terminators of
    ECMA-262 that fit in a code unit below U+0100. *)
Definition isWhiteSpace (c : ascii) : bool :=
  let n := N_of_ascii c in
  ((n =? 9) || (n =? 10) || (n =? 11) || (n =? 12) || (n =? 13)
   || (n =? 32) || (n =? 160))%N.

Fixpoint trimStart (s : string) : string :=
  match s with
  | EmptyString => ""
  | String c s' => if isWhiteSpace c then trimStart s' else s
  end.

Fixpoint trimEnd (s : string) : string :=
  match s with
  | EmptyString => ""
  | String c s' =>
    match trimEnd s' with
    | EmptyString => if isWhiteSpace c then "" else String c ""
    | String d r => String c (String d r)
    end
  end.

Definition trim (s : string) : string := trimEnd (trimStart s).

(** [!s] on a string. *)
Definition isEmptyString (s : string) : bool := String.eqb s "".

(* ================================================================== *)
(** * Persistence of the history *)
(* ================================================================== *)

(** The key the three storage calls of the component use. *)
Definition historyKey : string := "ubestream_rag_history".

(** An [AnswerHistoryItem] object as [JSON.stringify] walks it: its own
    properties in creation order. *)
Definition itemToJson (i : AnswerHistoryItem.t) : json :=
  JObj [("question", JStr (AnswerHistoryItem.question i));
        ("answer", JStr (AnswerHistoryItem.answer i));
        ("inferenceTime", JStr (AnswerHistoryItem.inferenceTime i));
        ("timestamp", JNum (AnswerHistoryItem.timestamp i))].

Definition historyToJson (h : list AnswerHistoryItem.t) : json :=
  JArr (List.map itemToJson h).

(** What [item => item.timestamp = Number(item.timestamp)] does to one
    element of the parsed array. *)
Inductive Visit : Type :=
| VThrows                             (* a [TypeError] *)
| VItem (i : AnswerHistoryItem.t)     (* an [AnswerHistoryItem], its timestamp a number *)
| VForeign.                           (* no exception, and no [AnswerHistoryItem] either *)

Definition visitElement (v : json) : Visit :=
  match v with
  | JNull => VThrows                          (* [null.timestamp] *)
  | JBool _ | JNum _ | JStr _ => VThrows      (* a property set on a primitive, strict mode *)
  | JArr _ => VForeign
  | JObj [(k1, JStr q); (k2, JStr a); (k3, JStr i); (k4, JNum t)] =>
    if String.eqb k1 "question" && String.eqb k2 "answer"
       && String.eqb k3 "inferenceTime" && String.eqb k4 "timestamp"
    then VItem (AnswerHistoryItem.mk q a i t)
    else VForeign
  | JObj _ => VForeign
  end.

Inductive Walk : Type :=
| WThrows
| WItems (l : list AnswerHistoryItem.t)
| WForeign.

(** [forEach] over the elements: the first exception ends the walk. *)
Fixpoint walkElements (l : list json) : Walk :=
  match l with
  | [] => WItems []
  | v :: rest =>
    match visitElement v with
    | VThrows => WThrows
    | VItem i =>
      match walkElements rest with
      | WItems r => WItems (i :: r)
      | WThrows => WThrows
      | WForeign => WForeign
      end
    | VForeign =>
      match walkElements rest with
      | WThrows => WThrows
      | _ => WForeign
      end
    end
  end.

(** [this.answerHistory = parsed; this.answerHistory.forEach(...)].
    A value that is no array has no [forEach]: calling it is a [TypeError].
    An array whose walk ends normally is the new history when every
    element is an [AnswerHistoryItem]; otherwise the field would hold a
    value outside its declared type, which the embedding does not follow. *)
Definition typedHistory (parsed : json) : M (list AnswerHistoryItem.t) :=
  match parsed with
  | JArr l =>
    match walkElements l with
    | WItems h => mret h
    | WThrows => throw TypeError
    | WForeign => unmodelled
    end
  | _ => throw TypeError
  end.

Definition JSON_parse_call (text : string) : M json :=
  match JSON_parse text with
  | POk v _ => mret v
  | PSyntaxError => throw SyntaxError
  | PBeyond => unmodelled
  end.

(* ================================================================== *)
(** * [class AppComponent]: the methods *)
(* ================================================================== *)

(** [loadHistoryFromLocalStorage()].  The assignment of the parsed value
    and the walk over it are one step here, [typedHistory]: a walk that
    throws ends in the handler, which overwrites the field. *)
Definition loadHistoryFromLocalStorage : M unit :=
  try_catch
    (historyJson ← localStorage_getItem historyKey;
     match historyJson with
     | Some text =>
       if isEmptyString text then mret tt
       else
         parsed ← JSON_parse_call text;
         history ← typedHistory parsed;
         assign (set_answerHistory history) ;;
         console_log [LStr "History loaded from local storage:";
                      LNum (Z.of_nat (length history)); LStr "items"]
     | None => mret tt
     end)
    (fun e =>
       console_error [LStr "Failed to load history from local storage"; LExn e] ;;
       assign (set_answerHistory [])).

(** [saveHistoryToLocalStorage()]. *)
Definition saveHistoryToLocalStorage : M unit :=
  try_catch
    (history ← get answerHistory;
     localStorage_setItem historyKey (JSON_stringify (historyToJson history)) ;;
     console_log [LStr "History saved to local storage."])
    (fun e =>
       console_error [LStr "Failed to save history to local storage"; LExn e]).

(** The statements of [clearHistory()] under its [if (confirm(...))]. *)
Definition clearHistory_stmts : list (M unit) :=
  [ assign (set_answerHistory []);
    assign (set_filteredHistory []);
    localStorage_removeItem historyKey;
    console_log [LStr "History cleared."] ].

(** [clearHistory()]. *)
Definition clearHistory (userAccepts : bool) : M unit :=
  confirm "Are you sure you want to clear all history?" userAccepts ≫=
  fun confirmed : bool =>
    if confirmed then block clearHistory_stmts else mret tt.

(** [this.answerHistory.push(item)]. *)
Definition answerHistory_push (item : AnswerHistoryItem.t) : M unit :=
  history ← get answerHistory;
  assign (set_answerHistory (history ++ [item])).

(** [checkApiStatus()], up to the subscription. *)
Definition checkApiStatus : M unit :=
  assign (set_apiStatus "Checking...") ;;
  ApiService.checkStatus.

(** Its [next] callback. *)
Definition checkApiStatus_next (response : StatusResponse.t) : M unit :=
  assign (set_apiStatus
            (if strictEquals (StatusResponse.status response) "ready"
             then "Ready" else "Not Ready")) ;;
  if negb (strictEquals (StatusResponse.status response) "ready") then
    assign (set_errorMessage
              (orElse (StatusResponse.message response) "API is not ready."))
  else
    assign (set_errorMessage "").

(** Its [error] callback. *)
Definition checkApiStatus_error (err : HttpErrorResponse) : M unit :=
  assign (set_apiStatus "Error") ;;
  assign (set_errorMessage
            "Could not connect to backend API. Please ensure FastAPI server is running on http://localhost:8006.") ;;
  console_error [LStr "API Status Check Error:"; LHttp err].

(** The [error] callback of [sendQuestion()]. *)
Definition sendQuestion_error (err : HttpErrorResponse) : M unit :=
  assign (set_errorMessage
            "Failed to get answer. Check console for details. Ensure Ollama server is running and models are pulled.") ;;
  assign (set_isLoading false) ;;
  console_error [LStr "Ask Question Error:"; LHttp err].

(** [sendQuestion()], up to the subscription. *)
Definition sendQuestion : M unit :=
  get question ≫= fun text : string =>
  if isEmptyString (trim text) then
    assign (set_errorMessage "Please enter a question.")
  else
    assign (set_isLoading true) ;;
    assign (set_answer "") ;;
    assign (set_inferenceTime "") ;;
    assign (set_errorMessage "") ;;
    currentQuestion ← get question;
    ApiService.askQuestion currentQuestion.

Section Component.
(** [String.prototype.localeCompare] of the host: negative, zero or
    positive.  The collation is the host's, so it is a parameter. *)
Context (localeCompare : string -> string -> Z).

(** [applySortingAndFiltering()]. *)
Definition applySortingAndFiltering : M unit :=
  history ← get answerHistory;
  mode ← get currentSort;
  let sorted := history in
  let sorted :=
    match mode with
    | time_desc =>
      Array_sort (fun a b => AnswerHistoryItem.timestamp b - AnswerHistoryItem.timestamp a) sorted
    | time_asc =>
      Array_sort (fun a b => AnswerHistoryItem.timestamp a - AnswerHistoryItem.timestamp b) sorted
    | alpha_asc =>
      Array_sort (fun a b => localeCompare (AnswerHistoryItem.question a)
                                           (AnswerHistoryItem.question b)) sorted
    | alpha_desc =>
      Array_sort (fun a b => localeCompare (AnswerHistoryItem.question b)
                                           (AnswerHistoryItem.question a)) sorted
    end in
  assign (set_filteredHistory sorted).

(** [ngOnInit()]. *)
Definition ngOnInit : M unit :=
  checkApiStatus ;;
  loadHistoryFromLocalStorage ;;
  applySortingAndFiltering.

(** The statements of the [next] callback of [sendQuestion()].
    [currentQuestion] is the constant the closure captured, [now] the
    value [Date.now()] returns. *)
Definition sendQuestion_next_stmts (currentQuestion : string) (now : Z)
    (response : AskResponse.t) : list (M unit) :=
  [ assign (set_answer (orElse (AskResponse.answer response) "No answer received."));
    assign (set_inferenceTime (orElse (AskResponse.inference_time response) "N/A"));
    assign (set_isLoading false);
    (shown ← get answer;
     time ← get inferenceTime;
     answerHistory_push (AnswerHistoryItem.mk currentQuestion shown time now));
    saveHistoryToLocalStorage;
    applySortingAndFiltering;
    assign (set_question "") ].

Definition sendQuestion_next (currentQuestion : string) (now : Z)
    (response : AskResponse.t) : M unit :=
  block (sendQuestion_next_stmts currentQuestion now response).

(** ** The bindings of [app.component.html] *)

Inductive DomEvent : Type :=
| QuestionInput (text : string)       (* [(ngModel)] of the textarea *)
| QuestionKeyupEnter                  (* [(keyup.enter)="sendQuestion()"] *)
| GetAnswerClick                      (* [(click)="sendQuestion()"] of the button *)
| SortSelect (mode : SortMode)        (* [(ngModel)] of the select *)
| SortChange                          (* [(change)="applySortingAndFiltering()"] *)
| ClearAllClick (userAccepts : bool). (* [(click)="clearHistory()"] *)

(** [[disabled]="isLoading || apiStatus !== 'Ready'"]. *)
Definition getAnswerDisabled (c : AppComponent) : bool :=
  isLoading c || negb (String.eqb (apiStatus c) "Ready").

(** A disabled button fires no click. *)
Definition dispatch (ev : DomEvent) : M unit :=
  match ev with
  | QuestionInput text => assign (set_question text)
  | QuestionKeyupEnter => sendQuestion
  | GetAnswerClick =>
    get getAnswerDisabled ≫= fun disabled : bool =>
    if disabled then mret tt else sendQuestion
  | SortSelect mode => assign (set_currentSort mode)
  | SortChange => applySortingAndFiltering
  | ClearAllClick userAccepts => clearHistory userAccepts
  end.
End Component.

(** A new component over a given storage area. *)
Definition freshWorld (st : Storage) : World :=
  {| this := newAppComponent; localStorage := st; effects := [] |}.

(** A page load: a new component over the storage the browser kept. *)
Definition reload (w : World) : World := freshWorld (localStorage w).

(** The stored blob, read back by a page load, is the history in memory. *)
Definition persistedAgrees (w : World) : Prop :=
  exists w', loadHistoryFromLocalStorage (reload w) = (Normal tt, w')
             /\ answerHistory (this w') = answerHistory (this w).

(** The world after the first [k] statements of a block. *)
Definition after (k : nat) (stmts : list (M unit)) (w : World) : Outcome unit * World :=
  block (take k stmts) w.

(** In a block, storage is rewritten before the view is recomputed:
    whenever a statement changes [filteredHistory], the world it starts
    from has the stored blob agree with the history in memory. *)
Definition storedBeforeView (stmts : list (M unit)) (w : World) : Prop :=
  forall k w1 w2,
    after k stmts w = (Normal tt, w1) ->
    after (S k) stmts w = (Normal tt, w2) ->
    filteredHistory (this w2) <> filteredHistory (this w1) ->
    persistedAgrees w1.

(* ================================================================== *)
(** * Notions used in the statements *)
(* ================================================================== *)

(** An area that takes every write, and one that takes none (a browser
    that grants the page no quota). *)
Definition roomyStorage : Storage :=
  {| items := ∅; accepts := fun _ _ => true |}.

Definition fullStorage : Storage :=
  {| items := ∅; accepts := fun _ _ => false |}.

(** The record the [next] callback builds. *)
Definition newHistoryItem (currentQuestion : string) (now : Z)
    (response : AskResponse.t) : AnswerHistoryItem.t :=
  AnswerHistoryItem.mk currentQuestion
    (orElse (AskResponse.answer response) "No answer received.")
    (orElse (AskResponse.inference_time response) "N/A")
    now.

(** Comparison by code units: the collation of a host whose locale orders
    text that way; it instantiates [localeCompare] in the examples. *)
Definition codeUnitCompare (a b : string) : Z :=
  match String.compare a b with
  | Lt => -1
  | Eq => 0
  | Gt => 1
  end.

(** A string of white space only (the empty one included). *)
Fixpoint allWhiteSpace (s : string) : bool :=
  match s with
  | EmptyString => true
  | String c s' => isWhiteSpace c && allWhiteSpace s'
  end.

(** Timestamps never go up along the list. *)
Definition nonIncreasing (l : list AnswerHistoryItem.t) : Prop :=
  Sorted (fun a b => AnswerHistoryItem.timestamp b <= AnswerHistoryItem.timestamp a) l.

(** The input after a number has been read: nothing that would continue it. *)
Definition endsNumber (rest : string) : bool :=
  match rest with
  | EmptyString => true
  | String c _ =>
    negb (isDigit c || Ascii.eqb c "." || Ascii.eqb c "e" || Ascii.eqb c "E")
  end.

(** The first character of a JSON value. *)
Definition startsValue (c : ascii) : bool :=
  isDigit c || Ascii.eqb c "-" || Ascii.eqb c dquote || Ascii.eqb c "n"
  || Ascii.eqb c "t" || Ascii.eqb c "f" || Ascii.eqb c "[" || Ascii.eqb c "{".

(** Fuel that parsing the text of a value takes. *)
Fixpoint weight (v : json) : nat :=
  match v with
  | JArr l => S (list_sum (List.map (fun x => S (weight x)) l))
  | JObj m => S (list_sum (List.map (fun kv => S (weight (snd kv))) m))
  | _ => 1
  end.

(** One member of an object, as [JSON_stringify] prints it. *)
Definition memberText (kv : string * json) : string :=
  quoteJSONString (fst kv) +:+ String ":" (JSON_stringify (snd kv)).

(** A value is read back from its text, whatever follows it. *)
Definition parsesBack (v : json) : Prop :=
  forall fuel rest,
    (weight v <= fuel)%nat -> endsNumber rest = true ->
    parseValue fuel (JSON_stringify v +:+ rest) = POk v rest.

(** The address [askQuestion] posts to. *)
Definition askUrl : string := ApiService.apiUrl +:+ "/ask".

(** The view [applySortingAndFiltering] computes. *)
Definition historyView (localeCompare : string -> string -> Z) (mode : SortMode)
    (history : list AnswerHistoryItem.t) : list AnswerHistoryItem.t :=
  match mode with
  | time_desc =>
    Array_sort (fun a b => AnswerHistoryItem.timestamp b - AnswerHistoryItem.timestamp a) history
  | time_asc =>
    Array_sort (fun a b => AnswerHistoryItem.timestamp a - AnswerHistoryItem.timestamp b) history
  | alpha_asc =>
    Array_sort (fun a b => localeCompare (AnswerHistoryItem.question a)
                                         (AnswerHistoryItem.question b)) history
  | alpha_desc =>
    Array_sort (fun a b => localeCompare (AnswerHistoryItem.question b)
                                         (AnswerHistoryItem.question a)) history
  end.

(** The [append] of the history store: the two statements of the [next]
    callback that push a record and persist the list. *)
Definition appendAndSave (item : AnswerHistoryItem.t) : M unit :=
  block [answerHistory_push item; saveHistoryToLocalStorage].

(** [sorted] is what a stable sort by [comparefn] makes of [l]: in order,
    and with the elements of each rank in the order they had in [l]. *)
Definition StableSortOf {A : Type} (comparefn : A -> A -> Z) (l sorted : list A) : Prop :=
  Sorted (fun a b => comparefn a b <= 0) sorted
  /\ Permutation sorted l
  /\ forall a, List.filter (fun x => comparefn a x =? 0) sorted
               = List.filter (fun x => comparefn a x =? 0) l.

(** ** Worlds used in the examples *)

Definition recordA : AnswerHistoryItem.t := AnswerHistoryItem.mk "A" "a" "1s" 100.

(** Two records, A older than B, in the order they were appended. *)
Definition worldAB (mode : SortMode) : World :=
  {| this := set_currentSort mode
               (set_answerHistory [AnswerHistoryItem.mk "A" "a" "1s" 100;
                                   AnswerHistoryItem.mk "B" "b" "2s" 200]
                                  newAppComponent);
     localStorage := roomyStorage;
     effects := [] |}.

(** One record appended where the storage area refuses the write. *)
Definition worldAfterRefusedSave : World :=
  snd (appendAndSave recordA (freshWorld fullStorage)).

(** A world with one exchange done and saved. *)
Definition worldWithOneRecord : World :=
  snd (sendQuestion_next codeUnitCompare "A" 100
         (AskResponse.mk (FText "a") (FText "1s")) (freshWorld roomyStorage)).

(** A storage area that holds a damaged blob under the key. *)
Definition damagedStorage : Storage :=
  {| items := {[ historyKey := "{oops" ]}; accepts := fun _ _ => true |}.

(** What the user types, and the line feed that Enter puts into a
    textarea ([ngModel] writes it to [question] before the key goes up). *)
Definition typedQuestion : string := "What services does Ubestream offer?".

Definition lineFeed : string := String "010" "".

(** The page after start-up, with the status check failed, the question
    typed and Enter pressed down. *)
Definition worldBackendDown : World :=
  snd (dispatch codeUnitCompare (QuestionInput (typedQuestion +:+ lineFeed))
    (snd (checkApiStatus_error {| http_status := 0; http_statusText := "Unknown Error" |}
      (snd (ngOnInit codeUnitCompare (freshWorld roomyStorage)))))).

(** The page with the backend ready, a first submission in flight, and
    Enter pressed down once more. *)
Definition worldLoading : World :=
  snd (dispatch codeUnitCompare (QuestionInput (typedQuestion +:+ lineFeed +:+ lineFeed))
    (snd (dispatch codeUnitCompare QuestionKeyupEnter
      (snd (dispatch codeUnitCompare (QuestionInput (typedQuestion +:+ lineFeed))
        (snd (checkApiStatus_next (StatusResponse.mk (FText "ready") FAbsent)
          (snd (ngOnInit codeUnitCompare (freshWorld roomyStorage)))))))))).

(** A question of three spaces. *)
Definition worldBlankQuestion : World :=
  {| this := set_question "   " newAppComponent;
     localStorage := roomyStorage;
     effects := [] |}.

(** ** Induction on JSON values, through the lists nested in them *)

Section JsonInduction.
Variable P : json -> Prop.
Hypothesis Hnull : P JNull.
Hypothesis Hbool : forall b, P (JBool b).
Hypothesis Hnum : forall z, P (JNum z).
Hypothesis Hstr : forall s, P (JStr s).
Hypothesis Harr : forall l, Forall P l -> P (JArr l).
Hypothesis Hobj : forall m, Forall (fun kv => P (snd kv)) m -> P (JObj m).

Fixpoint json_nested_ind (v : json) : P v :=
  match v with
  | JNull => Hnull
  | JBool b => Hbool b
  | JNum z => Hnum z
  | JStr s => Hstr s
  | JArr l =>
    Harr l ((fix go (l : list json) : Forall P l :=
               match l with
               | [] => @List.Forall_nil _ P
               | x :: r => @List.Forall_cons _ P x r (json_nested_ind x) (go r)
               end) l)
  | JObj m =>
    Hobj m ((fix go (m : list (string * json)) : Forall (fun kv => P (snd kv)) m :=
               match m with
               | [] => @List.Forall_nil _ _
               | kv :: r => @List.Forall_cons _ _ kv r (json_nested_ind (snd kv)) (go r)
               end) m)
  end.
End JsonInduction.

(* ================================================================== *)
(** * The page as a whole *)
(* ================================================================== *)

(** ** What the template shows *)

(** [*ngIf="errorMessage"]. *)
Definition errorShown (c : AppComponent) : bool :=
  negb (isEmptyString (errorMessage c)).

(** [*ngIf="answer || isLoading"]. *)
Definition answerPanelShown (c : AppComponent) : bool :=
  negb (isEmptyString (answer c)) || isLoading c.

(** [*ngIf="inferenceTime"]. *)
Definition inferenceTimeShown (c : AppComponent) : bool :=
  negb (isEmptyString (inferenceTime c)).

(** [*ngIf="filteredHistory.length === 0"] and
    [*ngIf="filteredHistory.length > 0"]. *)
Definition emptyNoteShown (c : AppComponent) : bool :=
  Nat.eqb (length (filteredHistory c)) 0.

Definition historyListShown (c : AppComponent) : bool :=
  Nat.ltb 0 (length (filteredHistory c)).

(** ** The events the page handles *)

(** The browser runs one callback at a time: the start of the component,
    an event of the template, or the completion of one of the two HTTP
    calls.  A completion of [askQuestion] carries the question its closure
    captured and the clock at that moment. *)
Inductive Event : Type :=
| Init
| Dom (ev : DomEvent)
| StatusNext (response : StatusResponse.t)
| StatusError (err : HttpErrorResponse)
| AskNext (currentQuestion : string) (now : Z) (response : AskResponse.t)
| AskError (err : HttpErrorResponse).

Definition handle (localeCompare : string -> string -> Z) (e : Event) : M unit :=
  match e with
  | Init => ngOnInit localeCompare
  | Dom ev => dispatch localeCompare ev
  | StatusNext response => checkApiStatus_next response
  | StatusError err => checkApiStatus_error err
  | AskNext currentQuestion now response =>
    sendQuestion_next localeCompare currentQuestion now response
  | AskError err => sendQuestion_error err
  end.

(** A run of events, each on the world the one before left. *)
Definition handleAll (localeCompare : string -> string -> Z) (es : list Event) : M unit :=
  block (List.map (handle localeCompare) es).

(** ** Properties of a world *)

(** The four texts [apiStatus] is ever given. *)
Definition knownStatus (s : string) : Prop :=
  s = "Checking..." \/ s = "Ready" \/ s = "Not Ready" \/ s = "Error".

(** The storage area takes every write. *)
Definition takesEveryWrite (st : Storage) : Prop :=
  forall key value, accepts st key value = true.

(** Storage and memory in step: no blob and no history, or the blob is
    the text of the history. *)
Definition storeInStep (w : World) : Prop :=
  match items (localStorage w) !! historyKey with
  | None => answerHistory (this w) = []
  | Some blob => blob = JSON_stringify (historyToJson (answerHistory (this w)))
  end.

(** The requests the page sends: the status check, and questions that are
    not blank. *)
Definition expectedEffect (e : Effect) : Prop :=
  match e with
  | HttpGet url => url = ApiService.apiUrl +:+ "/status"
  | HttpPost url body =>
    url = askUrl
    /\ exists query, body = JObj [("query", JStr query)] /\ allWhiteSpace query = false
  | _ => True
  end.

(** [null] and the primitive values: what has no property to set. *)
Definition isPrimitive (v : json) : bool :=
  match v with
  | JNull | JBool _ | JNum _ | JStr _ => true
  | JArr _ | JObj _ => false
  end.

(** A line on the console. *)
Definition isConsoleLine (e : Effect) : Prop :=
  match e with
  | ConsoleLog _ | ConsoleError _ => True
  | _ => False
  end.
(** The answers of the backend to a run of submissions: for each, the
    question the closure captured, the clock, and the response; the event
    and the record each one makes. *)
Definition answerEvent (a : string * Z * AskResponse.t) : Event :=
  AskNext (fst (fst a)) (snd (fst a)) (snd a).

Definition answerRecord (a : string * Z * AskResponse.t) : AnswerHistoryItem.t :=
  newHistoryItem (fst (fst a)) (snd (fst a)) (snd a).

(** The stored text, where there is one, is the text of a history. *)
Definition holdsSavedHistory (st : Storage) : Prop :=
  match items st !! historyKey with
  | None => True
  | Some blob => exists h, blob = JSON_stringify (historyToJson h)
  end.
(** A storage area whose text under the key is valid JSON and no history:
    an array of one number. *)
Definition strayStorage : Storage :=
  {| items := {[ historyKey := "[1]" ]}; accepts := fun _ _ => true |}.

(** A response of the backend, and its status when it is up. *)
Definition answerA : AskResponse.t := AskResponse.mk (FText "a") (FText "1s").

Definition statusReady : StatusResponse.t := StatusResponse.mk (FText "ready") FAbsent.

(* ================================================================== *)
(** * Proofs: JSON text is read back *)
(* ================================================================== *)

#[local] Arguments String.append : simpl nomatch.

Lemma append_assoc (a b c : string) : (a +:+ b) +:+ c = a +:+ (b +:+ c).
Proof. induction a as [|x a IH]; simpl; congruence. Qed.

Lemma append_cons (c : ascii) (a b : string) :
  String c a +:+ b = String c (a +:+ b).
Proof. reflexivity. Qed.

Lemma append_empty_l (b : string) : "" +:+ b = b.
Proof. reflexivity. Qed.

Ltac flatten_append :=
  repeat (rewrite append_assoc || rewrite append_cons || rewrite append_empty_l).

Lemma length_append (a b : string) :
  String.length (a +:+ b) = (String.length a + String.length b)%nat.
Proof. induction a as [|x a IH]; simpl; congruence. Qed.

Lemma parseChars_quoteJSONChar (c : ascii) (rest : string) :
  parseChars (quoteJSONChar c +:+ rest) = pmap (String c) (parseChars rest).
Proof.
  destruct c as [[] [] [] [] [] [] [] []]; reflexivity.
Qed.

Lemma parseChars_quoteJSONChars (s rest : string) :
  parseChars (quoteJSONChars s +:+ String dquote rest) = POk s rest.
Proof.
  induction s as [|c s IH]; simpl.
  - reflexivity.
  - rewrite append_assoc, parseChars_quoteJSONChar, IH. reflexivity.
Qed.

Lemma digitOf_None (c : ascii) : isDigit c = false -> digitOf c = None.
Proof. destruct c as [[] [] [] [] [] [] [] []]; simpl; intros H; try reflexivity; discriminate H. Qed.

Lemma endsNumber_lexDigits (rest : string) :
  endsNumber rest = true -> lexDigits rest = (Decimal.Nil, rest).
Proof.
  destruct rest as [|c r]; simpl; [reflexivity|].
  intros H. rewrite digitOf_None; [reflexivity|].
  destruct (isDigit c); [discriminate H | reflexivity].
Qed.

Lemma lexDigits_print (u : Decimal.uint) (rest : string) :
  endsNumber rest = true ->
  lexDigits (NilEmpty.string_of_uint u +:+ rest) = (u, rest).
Proof.
  intros H. induction u; simpl; try (rewrite IHu; reflexivity).
  now apply endsNumber_lexDigits.
Qed.

Lemma endsNumber_lexFraction (rest : string) :
  endsNumber rest = true -> lexFraction rest = Some (false, rest).
Proof.
  destruct rest as [|c r]; simpl; [reflexivity|].
  intros H. destruct (Ascii.eqb c "."); [|reflexivity].
  rewrite !orb_true_r in H; simpl in H. discriminate H.
Qed.

Lemma endsNumber_lexExponent (rest : string) :
  endsNumber rest = true -> lexExponent rest = Some (false, rest).
Proof.
  destruct rest as [|c r]; simpl; [reflexivity|].
  intros H. destruct (Ascii.eqb c "e"), (Ascii.eqb c "E"); simpl; try reflexivity;
    rewrite ?orb_true_r in H; simpl in H; discriminate H.
Qed.

Lemma to_uint_normal (n : N) : Decimal.unorm (N.to_uint n) = N.to_uint n.
Proof.
  pose proof (DecimalN.Unsigned.to_of (N.to_uint n)) as H.
  rewrite DecimalN.Unsigned.of_to in H. now symmetry.
Qed.

Lemma unorm_shape (u : Decimal.uint) :
  Decimal.unorm u = u ->
  u = Decimal.D0 Decimal.Nil \/
  (u <> Decimal.Nil /\ forall d, u <> Decimal.D0 d).
Proof.
  intros H. unfold Decimal.unorm in H.
  destruct (Decimal.nzhead u) eqn:E.
  - left. now symmetry.
  - subst u. now destruct (nzhead_nonzero _ _ E).
  - right. subst u. split; [discriminate|]; discriminate.
  - right. subst u. split; [discriminate|]; discriminate.
  - right. subst u. split; [discriminate|]; discriminate.
  - right. subst u. split; [discriminate|]; discriminate.
  - right. subst u. split; [discriminate|]; discriminate.
  - right. subst u. split; [discriminate|]; discriminate.
  - right. subst u. split; [discriminate|]; discriminate.
  - right. subst u. split; [discriminate|]; discriminate.
  - right. subst u. split; [discriminate|]; discriminate.
Qed.

Lemma parseUnsigned_print (n : N) (rest : string) :
  endsNumber rest = true ->
  parseUnsigned (printN n +:+ rest) = POk n rest.
Proof.
  intros H. unfold parseUnsigned, printN.
  rewrite (lexDigits_print _ _ H).
  rewrite (endsNumber_lexFraction _ H), (endsNumber_lexExponent _ H). simpl.
  assert (N.of_uint (N.to_uint n) = n) as Hn by apply DecimalN.Unsigned.of_to.
  destruct (unorm_shape _ (to_uint_normal n)) as [E | [E1 E2]].
  - rewrite E in *. now rewrite Hn.
  - destruct (N.to_uint n) as [|d|d|d|d|d|d|d|d|d|d] eqn:E;
      try (now rewrite Hn); try congruence.
Qed.

Lemma startsValue_facts (c : ascii) :
  startsValue c = true ->
  isJSONWhite c = false /\ Ascii.eqb c "]" = false /\ Ascii.eqb c "}" = false.
Proof.
  destruct c as [[] [] [] [] [] [] [] []]; simpl; intros H;
    try discriminate H; repeat split.
Qed.

Lemma isDigit_startsValue (c : ascii) : isDigit c = true -> startsValue c = true.
Proof. unfold startsValue. now intros ->. Qed.

Lemma printN_head (n : N) :
  exists c s, printN n = String c s /\ isDigit c = true.
Proof.
  unfold printN.
  destruct (unorm_shape _ (to_uint_normal n)) as [E | [E1 E2]].
  - rewrite E. simpl. eauto.
  - destruct (N.to_uint n); try congruence; simpl; eauto.
Qed.

Lemma JSON_stringify_head (v : json) :
  exists c s, JSON_stringify v = String c s /\ startsValue c = true.
Proof.
  destruct v as [|b|z|s|l|m]; simpl.
  - eauto.
  - destruct b; eauto.
  - unfold printZ. destruct (z <? 0); [eauto|].
    destruct (printN_head (Z.to_N z)) as (c & s & -> & H).
    eauto using isDigit_startsValue.
  - unfold quoteJSONString. eauto.
  - eauto.
  - eauto.
Qed.

Lemma skipWhite_starts (c : ascii) (s : string) :
  startsValue c = true -> skipWhite (String c s) = String c s.
Proof. intros H. simpl. now destruct (startsValue_facts c H) as (-> & _). Qed.

Lemma parseElements_stringify (l : list json) :
  Forall parsesBack l -> l <> [] ->
  forall fuel rest,
    (list_sum (List.map (fun x => S (weight x)) l) <= fuel)%nat ->
    parseElements fuel (joinComma (List.map JSON_stringify l) +:+ String "]" rest)
    = POk l rest.
Proof.
  induction l as [|v l IH]; [congruence|].
  intros HF _ fuel rest Hw. inversion_clear HF as [|? ? Hv Hl].
  destruct fuel as [|f]; [simpl in Hw; lia|].
  destruct l as [|v2 l2].
  - simpl in *. rewrite Hv by (trivial; lia). reflexivity.
  - change (joinComma (List.map JSON_stringify (v :: v2 :: l2)))
      with (JSON_stringify v +:+ String "," (joinComma (List.map JSON_stringify (v2 :: l2)))).
    rewrite append_assoc.
    change (parseElements (S f) ?s) with
      (match parseValue f s with
       | POk v s1 =>
         match skipWhite s1 with
         | String c s2 =>
           if Ascii.eqb c "," then pmap (cons v) (parseElements f s2)
           else if Ascii.eqb c "]" then POk [v] s2
           else PSyntaxError
         | EmptyString => PSyntaxError
         end
       | PSyntaxError => PSyntaxError
       | PBeyond => PBeyond
       end).
    simpl in Hw.
    rewrite Hv by (trivial; lia).
    change (String "," ?a +:+ ?b) with (String "," (a +:+ b)).
    simpl skipWhite. simpl Ascii.eqb. cbv iota.
    rewrite IH; [reflexivity | assumption | discriminate | simpl; lia].
Qed.

Lemma parseMembers_stringify (m : list (string * json)) :
  Forall (fun kv => parsesBack (snd kv)) m -> m <> [] ->
  forall fuel rest,
    (list_sum (List.map (fun kv => S (weight (snd kv))) m) <= fuel)%nat ->
    parseMembers fuel (joinComma (List.map memberText m) +:+ String "}" rest)
    = POk m rest.
Proof.
  induction m as [|[k v] m IH]; [congruence|].
  intros HF _ fuel rest Hw. inversion_clear HF as [|? ? Hv Hm]. simpl in Hv.
  destruct fuel as [|f]; [simpl in Hw; lia|].
  assert (forall tail, endsNumber tail = true ->
    parseMembers (S f) (memberText (k, v) +:+ tail) =
    match skipWhite tail with
    | String c s5 =>
      if Ascii.eqb c "," then pmap (cons (k, v)) (parseMembers f s5)
      else if Ascii.eqb c "}" then POk [(k, v)] s5
      else PSyntaxError
    | EmptyString => PSyntaxError
    end) as Hstep.
  { intros tail Ht. unfold memberText, quoteJSONString. simpl fst. simpl snd.
    flatten_append.
    change (parseMembers (S f) (String dquote ?s1)) with
      (match parseChars s1 with
       | POk key s2 =>
         match skipWhite s2 with
         | String colon s3 =>
           if Ascii.eqb colon ":" then
             match parseValue f s3 with
             | POk v s4 =>
               match skipWhite s4 with
               | String c s5 =>
                 if Ascii.eqb c "," then pmap (cons (key, v)) (parseMembers f s5)
                 else if Ascii.eqb c "}" then POk [(key, v)] s5
                 else PSyntaxError
               | EmptyString => PSyntaxError
               end
             | PSyntaxError => PSyntaxError
             | PBeyond => PBeyond
             end
           else PSyntaxError
         | EmptyString => PSyntaxError
         end
       | PSyntaxError => PSyntaxError
       | PBeyond => PBeyond
       end).
    rewrite parseChars_quoteJSONChars.
    simpl skipWhite. simpl Ascii.eqb. cbv iota.
    rewrite Hv by (trivial; simpl in Hw; lia). reflexivity. }
  destruct m as [|kv2 m2].
  - simpl joinComma. simpl List.map. rewrite Hstep by reflexivity. reflexivity.
  - change (joinComma (List.map memberText ((k, v) :: kv2 :: m2)))
      with (memberText (k, v) +:+ String "," (joinComma (List.map memberText (kv2 :: m2)))).
    rewrite append_assoc, append_cons.
    rewrite Hstep by reflexivity.
    simpl skipWhite. simpl Ascii.eqb. cbv iota.
    rewrite IH; [reflexivity | assumption | discriminate | simpl in *; lia].
Qed.

Lemma parseValue_digit (f : nat) (c : ascii) (s1 : string) :
  isDigit c = true ->
  parseValue (S f) (String c s1)
  = pmap (fun n => JNum (Z.of_N n)) (parseUnsigned (String c s1)).
Proof.
  intros H. destruct (startsValue_facts c (isDigit_startsValue c H)) as (Hw & _).
  cbn [parseValue skipWhite]. now rewrite Hw, H.
Qed.

Lemma parseValue_stringify (v : json) : parsesBack v.
Proof.
  induction v as [|b|z|s|l IH|m IH] using json_nested_ind;
    intros fuel rest Hw Hr; (destruct fuel as [|f]; [simpl in Hw; lia|]).
  - reflexivity.
  - destruct b; reflexivity.
  - simpl JSON_stringify. unfold printZ. destruct (Z.ltb_spec z 0) as [Hz|Hz].
    + change (String "-" ?a +:+ ?b) with (String "-" (a +:+ b)).
      change (parseValue (S f) (String "-" ?s1)) with
        (pmap (fun n => JNum (- Z.of_N n)) (parseUnsigned s1)).
      rewrite parseUnsigned_print by assumption. simpl. do 2 f_equal. lia.
    + destruct (printN_head (Z.to_N z)) as (c & s & E & Hc).
      assert (parseValue (S f) (printN (Z.to_N z) +:+ rest)
              = pmap (fun n => JNum (Z.of_N n))
                     (parseUnsigned (printN (Z.to_N z) +:+ rest))) as ->.
      { rewrite E, append_cons. now apply parseValue_digit. }
      rewrite parseUnsigned_print by assumption. simpl. do 2 f_equal. lia.
  - simpl JSON_stringify. unfold quoteJSONString.
    change (String dquote ?a +:+ ?b) with (String dquote (a +:+ b)).
    rewrite append_assoc.
    change (String dquote "" +:+ ?b) with (String dquote b).
    change (parseValue (S f) (String dquote ?s1)) with (pmap JStr (parseChars s1)).
    now rewrite parseChars_quoteJSONChars.
  - simpl JSON_stringify.
    change (String "[" ?a +:+ ?b) with (String "[" (a +:+ b)).
    rewrite append_assoc.
    change ("]" +:+ rest) with (String "]" rest).
    destruct l as [|v l].
    + reflexivity.
    + destruct (JSON_stringify_head v) as (c & s & E & Hc).
      destruct (startsValue_facts c Hc) as (Hc1 & Hc2 & _).
      assert (skipWhite (joinComma (List.map JSON_stringify (v :: l)) +:+ String "]" rest)
              = String c (s +:+ match l with
                                | [] => String "]" rest
                                | _ => String "," (joinComma (List.map JSON_stringify l)) +:+ String "]" rest
                                end)) as Hskip.
      { destruct l; simpl; rewrite E; simpl; rewrite Hc1; try reflexivity.
        now rewrite append_assoc. }
      change (parseValue (S f) (String "[" ?s1)) with
        (match skipWhite s1 with
         | String c2 s2 =>
           if Ascii.eqb c2 "]" then POk (JArr []) s2
           else pmap JArr (parseElements f s1)
         | EmptyString => PSyntaxError
         end).
      rewrite Hskip, Hc2.
      rewrite parseElements_stringify; [reflexivity | assumption | discriminate |].
      simpl in Hw |- *. lia.
  - destruct m as [|[k v] m].
    + reflexivity.
    + change (JSON_stringify (JObj ((k, v) :: m)))
        with (String "{" (joinComma (List.map memberText ((k, v) :: m)) +:+ "}")).
      rewrite append_cons, append_assoc.
      change ("}" +:+ rest) with (String "}" rest).
      assert (skipWhite (joinComma (List.map memberText ((k, v) :: m)) +:+ String "}" rest)
              = String dquote (quoteJSONChars k +:+ String dquote "" +:+
                  String ":" (JSON_stringify v) +:+
                  match m with
                  | [] => String "}" rest
                  | _ => String "," (joinComma (List.map memberText m)) +:+ String "}" rest
                  end)) as Hskip.
      { destruct m; simpl; unfold memberText, quoteJSONString; simpl;
          now rewrite !append_assoc. }
      change (parseValue (S f) (String "{" ?s1)) with
        (match skipWhite s1 with
         | String c2 s2 =>
           if Ascii.eqb c2 "}" then POk (JObj []) s2
           else pmap JObj (parseMembers f s1)
         | EmptyString => PSyntaxError
         end).
      rewrite Hskip. simpl Ascii.eqb. cbv iota.
      rewrite parseMembers_stringify; [reflexivity | assumption | discriminate |].
      simpl in Hw |- *. lia.
Qed.

Lemma append_empty_r (s : string) : s +:+ "" = s.
Proof. induction s as [|c s IH]; simpl; congruence. Qed.

Lemma length_joinComma_elements (l : list json) :
  Forall (fun v => (weight v <= 2 * String.length (JSON_stringify v))%nat) l ->
  (list_sum (List.map (fun x => S (weight x)) l)
   <= 2 * String.length (joinComma (List.map JSON_stringify l)) + 1)%nat.
Proof.
  induction 1 as [|v l Hv Hl IH]; [simpl; lia|].
  destruct l as [|v2 l2]; [simpl in *; lia|].
  change (joinComma (List.map JSON_stringify (v :: v2 :: l2)))
    with (JSON_stringify v +:+ String "," (joinComma (List.map JSON_stringify (v2 :: l2)))).
  rewrite length_append. simpl String.length. simpl in IH |- *. lia.
Qed.

Lemma length_joinComma_members (m : list (string * json)) :
  Forall (fun kv => (weight (snd kv) <= 2 * String.length (JSON_stringify (snd kv)))%nat) m ->
  (list_sum (List.map (fun kv => S (weight (snd kv))) m)
   <= 2 * String.length (joinComma (List.map memberText m)) + 1)%nat.
Proof.
  assert (forall kv, (String.length (JSON_stringify (snd kv))
                      <= String.length (memberText kv))%nat) as Hlen.
  { intros kv. unfold memberText. rewrite length_append.
    change (String.length (String ":" ?s)) with (S (String.length s)).
    generalize (String.length (JSON_stringify (snd kv))),
               (String.length (quoteJSONString (fst kv))). lia. }
  induction 1 as [|kv m Hv Hm IH]; [simpl; lia|].
  specialize (Hlen kv). cbv beta in Hv.
  destruct m as [|kv2 m2];
    [unfold list_sum; cbn [List.map fold_right joinComma]; lia|].
  change (joinComma (List.map memberText (kv :: kv2 :: m2)))
    with (memberText kv +:+ String "," (joinComma (List.map memberText (kv2 :: m2)))).
  rewrite length_append.
  change (String.length (String "," ?s)) with (S (String.length s)).
  unfold list_sum in IH |- *. cbn [List.map fold_right] in IH |- *. lia.
Qed.

Lemma weight_le_length (v : json) :
  (weight v <= 2 * String.length (JSON_stringify v))%nat.
Proof.
  induction v as [|b|z|s|l IH|m IH] using json_nested_ind.
  - simpl; lia.
  - destruct b; simpl; lia.
  - destruct (JSON_stringify_head (JNum z)) as (c & s & -> & _). simpl; lia.
  - simpl; lia.
  - pose proof (length_joinComma_elements l IH) as H.
    simpl JSON_stringify. simpl weight. simpl String.length.
    rewrite length_append. simpl String.length. lia.
  - pose proof (length_joinComma_members m IH) as H.
    change (JSON_stringify (JObj m))
      with (String "{" (joinComma (List.map memberText m) +:+ "}")).
    simpl weight. simpl String.length.
    rewrite length_append. simpl String.length. lia.
Qed.

(** [JSON.parse(JSON.stringify(v))] is [v]. *)
Lemma JSON_parse_stringify (v : json) :
  JSON_parse (JSON_stringify v) = POk v "".
Proof.
  unfold JSON_parse.
  pose proof (weight_le_length v) as Hw.
  rewrite <- (append_empty_r (JSON_stringify v)) at 2.
  rewrite parseValue_stringify; [reflexivity | lia | reflexivity].
Qed.

(** ** The fuel of the parser *)

Lemma skipWhite_length (s : string) :
  (String.length (skipWhite s) <= String.length s)%nat.
Proof.
  induction s as [|c s IH]; simpl; [lia|].
  destruct (isJSONWhite c); simpl; lia.
Qed.

Lemma skipWhite_cons (s : string) (c : ascii) (s1 : string) :
  skipWhite s = String c s1 -> (String.length s1 < String.length s)%nat.
Proof.
  intros H. pose proof (skipWhite_length s) as Hl. rewrite H in Hl. simpl in Hl. lia.
Qed.

Lemma pmap_POk {A B} (f : A -> B) (r : Parse A) (b : B) (rest : string) :
  pmap f r = POk b rest -> exists a, r = POk a rest /\ b = f a.
Proof. destruct r; simpl; intros H; inversion H; eauto. Qed.

Lemma parseChars_shorter (n : nat) :
  forall s x rest,
    (String.length s <= n)%nat ->
    parseChars s = POk x rest -> (String.length rest < String.length s)%nat.
Proof.
  induction n as [|n IH]; intros s x rest Hn H.
  - destruct s; [discriminate H | simpl in Hn; lia].
  - destruct s as [|c s1]; [discriminate H|]. simpl in Hn.
    cbn [parseChars] in H.
    destruct (Ascii.eqb c dquote).
    { injection H as _ <-. simpl; lia. }
    destruct (Ascii.eqb c "\").
    + destruct s1 as [|e s2]; [discriminate H|]. simpl in Hn.
      assert (forall ch, pmap (String ch) (parseChars s2) = POk x rest ->
                (String.length rest < String.length (String c (String e s2)))%nat) as Hesc.
      { intros ch Hp. apply pmap_POk in Hp as (a & Hp & _).
        apply IH in Hp; simpl; lia. }
      repeat match type of H with
             | (if ?b then _ else _) = _ => destruct b; [now apply Hesc in H|]
             end.
      destruct (Ascii.eqb e "u"); [|discriminate H].
      destruct s2 as [|h1 [|h2 [|h3 [|h4 s3]]]]; try discriminate H.
      destruct (hexValue h1), (hexValue h2), (hexValue h3), (hexValue h4);
        try discriminate H.
      cbv zeta in H.
      match type of H with (if ?b then _ else _) = _ => destruct b; [|discriminate H] end.
      apply pmap_POk in H as (a & Hp & _). simpl in Hn.
      apply IH in Hp; simpl; lia.
    + destruct (N_of_ascii c <? 32)%N; [discriminate H|].
      apply pmap_POk in H as (a & Hp & _). apply IH in Hp; simpl; lia.
Qed.

Lemma lexDigits_shorter (s : string) :
  (String.length (snd (lexDigits s)) <= String.length s)%nat
  /\ (fst (lexDigits s) <> Decimal.Nil ->
      String.length (snd (lexDigits s)) < String.length s)%nat.
Proof.
  induction s as [|c s IH]; simpl; [split; [lia | congruence]|].
  destruct (digitOf c) as [d|].
  - destruct (lexDigits s) as [u rest]. simpl in *. split; [lia | intros _; lia].
  - simpl. split; [lia | congruence].
Qed.

Lemma lexFraction_plain (s : string) (rest : string) :
  lexFraction s = Some (false, rest) -> rest = s.
Proof.
  destruct s as [|c s1]; simpl; [congruence|].
  destruct (Ascii.eqb c "."); [|congruence].
  destruct (lexDigits s1) as [[] ?]; congruence.
Qed.

Lemma lexExponent_plain (s : string) (rest : string) :
  lexExponent s = Some (false, rest) -> rest = s.
Proof.
  destruct s as [|c s1]; simpl; [congruence|].
  destruct (Ascii.eqb c "e" || Ascii.eqb c "E"); [|congruence].
  match goal with |- match lexDigits ?a with _ => _ end = _ -> _ =>
    destruct (lexDigits a) as [[] ?]; congruence end.
Qed.

Lemma parseUnsigned_shorter (s : string) (n : N) (rest : string) :
  parseUnsigned s = POk n rest -> (String.length rest < String.length s)%nat.
Proof.
  unfold parseUnsigned. pose proof (lexDigits_shorter s) as [_ Hs].
  destruct (lexDigits s) as [int s1]. simpl in Hs.
  assert (int <> Decimal.Nil ->
          match lexFraction s1 with
          | Some (hasFraction, s2) =>
            match lexExponent s2 with
            | Some (hasExponent, s3) =>
              if hasFraction || hasExponent then PBeyond else POk (N.of_uint int) s3
            | None => PSyntaxError
            end
          | None => PSyntaxError
          end = POk n rest -> (String.length rest < String.length s)%nat) as Hgo.
  { intros Hne H. specialize (Hs Hne).
    destruct (lexFraction s1) as [[hf s2]|] eqn:Ef; [|discriminate H].
    destruct (lexExponent s2) as [[he s3]|] eqn:Ee; [|discriminate H].
    destruct hf; [discriminate H|]. destruct he; [discriminate H|].
    apply lexFraction_plain in Ef. apply lexExponent_plain in Ee. subst.
    simpl in H. injection H as _ <-. exact Hs. }
  destruct int as [|d|d|d|d|d|d|d|d|d|d]; try (apply Hgo; discriminate).
  - discriminate.
  - destruct d; try discriminate; apply Hgo; discriminate.
Qed.

Lemma expect_shorter (word s rest : string) :
  expect word s = Some rest -> (String.length rest <= String.length s)%nat.
Proof.
  revert s. induction word as [|w word IH]; intros s; simpl.
  - intros [= <-]. lia.
  - destruct s as [|c s1]; [discriminate|].
    destruct (Ascii.eqb w c); [|discriminate].
    intros H. apply IH in H. simpl. lia.
Qed.

Lemma keyword_shorter {A} (word s : string) (v a : A) (rest : string) :
  keyword word s v = POk a rest -> (String.length rest <= String.length s)%nat.
Proof.
  unfold keyword. destruct (expect word s) eqn:E; [|discriminate].
  intros [= _ <-]. now apply expect_shorter in E.
Qed.

(** One step of each parser. *)
Lemma parseValue_unfold (f : nat) (s : string) :
  parseValue (S f) s =
  match skipWhite s with
  | EmptyString => PSyntaxError
  | String c s1 =>
    if isDigit c then pmap (fun n => JNum (Z.of_N n)) (parseUnsigned (String c s1))
    else if Ascii.eqb c "-" then pmap (fun n => JNum (- Z.of_N n)) (parseUnsigned s1)
    else if Ascii.eqb c dquote then pmap JStr (parseChars s1)
    else if Ascii.eqb c "n" then keyword "ull" s1 JNull
    else if Ascii.eqb c "t" then keyword "rue" s1 (JBool true)
    else if Ascii.eqb c "f" then keyword "alse" s1 (JBool false)
    else if Ascii.eqb c "[" then
      match skipWhite s1 with
      | String c2 s2 =>
        if Ascii.eqb c2 "]" then POk (JArr []) s2
        else pmap JArr (parseElements f s1)
      | EmptyString => PSyntaxError
      end
    else if Ascii.eqb c "{" then
      match skipWhite s1 with
      | String c2 s2 =>
        if Ascii.eqb c2 "}" then POk (JObj []) s2
        else pmap JObj (parseMembers f s1)
      | EmptyString => PSyntaxError
      end
    else PSyntaxError
  end.
Proof. reflexivity. Qed.

Lemma parseElements_unfold (f : nat) (s : string) :
  parseElements (S f) s =
  match parseValue f s with
  | POk v s1 =>
    match skipWhite s1 with
    | String c s2 =>
      if Ascii.eqb c "," then pmap (cons v) (parseElements f s2)
      else if Ascii.eqb c "]" then POk [v] s2
      else PSyntaxError
    | EmptyString => PSyntaxError
    end
  | PSyntaxError => PSyntaxError
  | PBeyond => PBeyond
  end.
Proof. reflexivity. Qed.

Lemma parseMembers_unfold (f : nat) (s : string) :
  parseMembers (S f) s =
  match skipWhite s with
  | String q s1 =>
    if Ascii.eqb q dquote then
      match parseChars s1 with
      | POk key s2 =>
        match skipWhite s2 with
        | String colon s3 =>
          if Ascii.eqb colon ":" then
            match parseValue f s3 with
            | POk v s4 =>
              match skipWhite s4 with
              | String c s5 =>
                if Ascii.eqb c "," then pmap (cons (key, v)) (parseMembers f s5)
                else if Ascii.eqb c "}" then POk [(key, v)] s5
                else PSyntaxError
              | EmptyString => PSyntaxError
              end
            | PSyntaxError => PSyntaxError
            | PBeyond => PBeyond
            end
          else PSyntaxError
        | EmptyString => PSyntaxError
        end
      | PSyntaxError => PSyntaxError
      | PBeyond => PBeyond
      end
    else PSyntaxError
  | EmptyString => PSyntaxError
  end.
Proof. reflexivity. Qed.

(** Every parser that succeeds has consumed input. *)
Lemma parsers_consume (f : nat) :
  (forall s v rest, parseValue f s = POk v rest ->
                    (String.length rest < String.length s)%nat)
  /\ (forall s l rest, parseElements f s = POk l rest ->
                       (String.length rest < String.length s)%nat)
  /\ (forall s m rest, parseMembers f s = POk m rest ->
                       (String.length rest < String.length s)%nat).
Proof.
  induction f as [|f (IHv & IHe & IHm)]; [repeat split; intros; discriminate|].
  split; [|split].
  - intros s v rest. rewrite parseValue_unfold.
    pose proof (skipWhite_length s) as Hs.
    destruct (skipWhite s) as [|c s1] eqn:E; [discriminate|]. simpl in Hs.
    destruct (isDigit c).
    { intros H. apply pmap_POk in H as (a & H & _).
      apply parseUnsigned_shorter in H. simpl in H. lia. }
    destruct (Ascii.eqb c "-").
    { intros H. apply pmap_POk in H as (a & H & _).
      apply parseUnsigned_shorter in H. lia. }
    destruct (Ascii.eqb c dquote).
    { intros H. apply pmap_POk in H as (a & H & _).
      apply (parseChars_shorter _ _ _ _ (le_n _)) in H. lia. }
    destruct (Ascii.eqb c "n"); [intros H; apply keyword_shorter in H; lia|].
    destruct (Ascii.eqb c "t"); [intros H; apply keyword_shorter in H; lia|].
    destruct (Ascii.eqb c "f"); [intros H; apply keyword_shorter in H; lia|].
    destruct (Ascii.eqb c "[").
    { destruct (skipWhite s1) as [|c2 s2] eqn:E2; [discriminate|].
      apply skipWhite_cons in E2.
      destruct (Ascii.eqb c2 "]"); [intros [= _ <-]; lia|].
      intros H. apply pmap_POk in H as (a & H & _). apply IHe in H. lia. }
    destruct (Ascii.eqb c "{"); [|discriminate].
    destruct (skipWhite s1) as [|c2 s2] eqn:E2; [discriminate|].
    apply skipWhite_cons in E2.
    destruct (Ascii.eqb c2 "}"); [intros [= _ <-]; lia|].
    intros H. apply pmap_POk in H as (a & H & _). apply IHm in H. lia.
  - intros s l rest. rewrite parseElements_unfold.
    destruct (parseValue f s) as [v s1| |] eqn:Ev; try discriminate.
    apply IHv in Ev.
    destruct (skipWhite s1) as [|c s2] eqn:E2; [discriminate|].
    apply skipWhite_cons in E2.
    destruct (Ascii.eqb c ",").
    { intros H. apply pmap_POk in H as (a & H & _). apply IHe in H. lia. }
    destruct (Ascii.eqb c "]"); [intros [= _ <-]; lia | discriminate].
  - intros s m rest. rewrite parseMembers_unfold.
    destruct (skipWhite s) as [|q s1] eqn:E1; [discriminate|].
    apply skipWhite_cons in E1.
    destruct (Ascii.eqb q dquote); [|discriminate].
    destruct (parseChars s1) as [key s2| |] eqn:Ek; try discriminate.
    apply (parseChars_shorter _ _ _ _ (le_n _)) in Ek.
    destruct (skipWhite s2) as [|colon s3] eqn:E3; [discriminate|].
    apply skipWhite_cons in E3.
    destruct (Ascii.eqb colon ":"); [|discriminate].
    destruct (parseValue f s3) as [v s4| |] eqn:Ev; try discriminate.
    apply IHv in Ev.
    destruct (skipWhite s4) as [|c s5] eqn:E5; [discriminate|].
    apply skipWhite_cons in E5.
    destruct (Ascii.eqb c ",").
    { intros H. apply pmap_POk in H as (a & H & _). apply IHm in H. lia. }
    destruct (Ascii.eqb c "}"); [intros [= _ <-]; lia | discriminate].
Qed.

(** Past the bound, one more unit of fuel changes no answer. *)
Lemma fuel_is_enough (f : nat) :
  (forall s, (2 * String.length s + 1 <= f)%nat ->
             parseValue (S f) s = parseValue f s)
  /\ (forall s, (2 * String.length s + 2 <= f)%nat ->
                parseElements (S f) s = parseElements f s)
  /\ (forall s, (2 * String.length s + 2 <= f)%nat ->
                parseMembers (S f) s = parseMembers f s).
Proof.
  induction f as [|f (IHv & IHe & IHm)]; [repeat split; intros; lia|].
  destruct (parsers_consume f) as (Cv & _ & _).
  split; [|split].
  - intros s Hf. rewrite (parseValue_unfold (S f)), (parseValue_unfold f).
    pose proof (skipWhite_length s) as Hs.
    destruct (skipWhite s) as [|c s1] eqn:E; [reflexivity|]. simpl in Hs.
    repeat match goal with
           | |- (if ?b then _ else _) = (if ?b then _ else _) =>
             destruct b; [reflexivity|]
           end.
    destruct (Ascii.eqb c "[").
    { destruct (skipWhite s1) as [|c2 s2]; [reflexivity|].
      destruct (Ascii.eqb c2 "]"); [reflexivity|].
      rewrite IHe by lia. reflexivity. }
    destruct (Ascii.eqb c "{"); [|reflexivity].
    destruct (skipWhite s1) as [|c2 s2]; [reflexivity|].
    destruct (Ascii.eqb c2 "}"); [reflexivity|].
    rewrite IHm by lia. reflexivity.
  - intros s Hf. rewrite (parseElements_unfold (S f)), (parseElements_unfold f).
    rewrite IHv by lia.
    destruct (parseValue f s) as [v s1| |] eqn:Ev; try reflexivity.
    apply Cv in Ev.
    destruct (skipWhite s1) as [|c s2] eqn:E2; [reflexivity|].
    apply skipWhite_cons in E2.
    destruct (Ascii.eqb c ","); [|reflexivity].
    rewrite IHe by lia. reflexivity.
  - intros s Hf. rewrite (parseMembers_unfold (S f)), (parseMembers_unfold f).
    destruct (skipWhite s) as [|q s1] eqn:E1; [reflexivity|].
    apply skipWhite_cons in E1.
    destruct (Ascii.eqb q dquote); [|reflexivity].
    destruct (parseChars s1) as [key s2| |] eqn:Ek; try reflexivity.
    apply (parseChars_shorter _ _ _ _ (le_n _)) in Ek.
    destruct (skipWhite s2) as [|colon s3] eqn:E3; [reflexivity|].
    apply skipWhite_cons in E3.
    destruct (Ascii.eqb colon ":"); [|reflexivity].
    rewrite IHv by lia.
    destruct (parseValue f s3) as [v s4| |] eqn:Ev; try reflexivity.
    apply Cv in Ev.
    destruct (skipWhite s4) as [|c s5] eqn:E5; [reflexivity|].
    apply skipWhite_cons in E5.
    destruct (Ascii.eqb c ","); [|reflexivity].
    rewrite IHm by lia. reflexivity.
Qed.

(** [JSON_parse] is given enough fuel: with any amount more, [parseValue]
    returns the same answer on the same text.  What [JSON_parse] reports
    does not depend on the fuel. *)
Lemma JSON_parse_fuel (text : string) (extra : nat) :
  parseValue (2 * String.length text + 2 + extra) text
  = parseValue (2 * String.length text + 2) text.
Proof.
  induction extra as [|extra IH]; [now rewrite Nat.add_0_r|].
  rewrite Nat.add_succ_r. destruct (fuel_is_enough (2 * String.length text + 2 + extra))
    as (Hv & _). rewrite Hv by lia. exact IH.
Qed.

(** ** The history as JSON *)

Lemma visitElement_itemToJson (i : AnswerHistoryItem.t) :
  visitElement (itemToJson i) = VItem i.
Proof. destruct i; reflexivity. Qed.

Lemma walkElements_history (h : list AnswerHistoryItem.t) :
  walkElements (List.map itemToJson h) = WItems h.
Proof.
  induction h as [|i h IH]; [reflexivity|].
  simpl List.map. cbn [walkElements]. now rewrite visitElement_itemToJson, IH.
Qed.

Lemma typedHistory_historyToJson (h : list AnswerHistoryItem.t) (w : World) :
  typedHistory (historyToJson h) w = (Normal h, w).
Proof. unfold typedHistory, historyToJson. now rewrite walkElements_history. Qed.

Lemma historyText_not_empty (h : list AnswerHistoryItem.t) :
  isEmptyString (JSON_stringify (historyToJson h)) = false.
Proof. reflexivity. Qed.

(** Loading the text of a history puts that history in memory. *)
Lemma load_stored_history (h : list AnswerHistoryItem.t) (w : World) :
  items (localStorage w) !! historyKey = Some (JSON_stringify (historyToJson h)) ->
  loadHistoryFromLocalStorage w =
  (Normal tt,
   {| this := set_answerHistory h (this w);
      localStorage := localStorage w;
      effects := effects w ++ [ConsoleLog [LStr "History loaded from local storage:";
                                           LNum (Z.of_nat (length h)); LStr "items"]] |}).
Proof.
  intros Hget.
  unfold loadHistoryFromLocalStorage, try_catch, localStorage_getItem.
  unfold mbind, M_bind. rewrite Hget, historyText_not_empty.
  unfold JSON_parse_call. rewrite JSON_parse_stringify.
  unfold mret, M_ret. rewrite typedHistory_historyToJson.
  reflexivity.
Qed.

(** A write the area takes: the blob is the text of the history. *)
Lemma save_accepted (w : World) :
  accepts (localStorage w) historyKey
          (JSON_stringify (historyToJson (answerHistory (this w)))) = true ->
  saveHistoryToLocalStorage w =
  (Normal tt,
   {| this := this w;
      localStorage :=
        {| items := <[historyKey := JSON_stringify (historyToJson (answerHistory (this w)))]>
                      (items (localStorage w));
           accepts := accepts (localStorage w) |};
      effects := effects w ++ [ConsoleLog [LStr "History saved to local storage."]] |}).
Proof.
  intros H. unfold saveHistoryToLocalStorage, try_catch, localStorage_setItem, get.
  unfold mbind, M_bind. rewrite H. reflexivity.
Qed.

(** A write the area refuses: the failure is logged, nothing is stored. *)
Lemma save_refused (w : World) :
  accepts (localStorage w) historyKey
          (JSON_stringify (historyToJson (answerHistory (this w)))) = false ->
  saveHistoryToLocalStorage w =
  (Normal tt,
   {| this := this w;
      localStorage := localStorage w;
      effects := effects w ++ [ConsoleError [LStr "Failed to save history to local storage";
                                             LExn QuotaExceededError]] |}).
Proof.
  intros H. unfold saveHistoryToLocalStorage, try_catch, localStorage_setItem, get.
  unfold mbind, M_bind. rewrite H. reflexivity.
Qed.

(* ================================================================== *)
(** * Proofs: sorting *)
(* ================================================================== *)

Section SortFacts.
Context {A : Type} (comparefn : A -> A -> Z).

Lemma insertInOrder_Permutation (x : A) (l : list A) :
  Permutation (insertInOrder comparefn x l) (x :: l).
Proof.
  induction l as [|y l IH]; simpl.
  - apply Permutation_refl.
  - destruct (comparefn x y <=? 0).
    + apply Permutation_refl.
    + apply Permutation_trans with (y :: x :: l).
      * now apply perm_skip.
      * apply perm_swap.
Qed.

Lemma Array_sort_Permutation (l : list A) : Permutation (Array_sort comparefn l) l.
Proof.
  induction l as [|x l IH]; simpl.
  - apply perm_nil.
  - apply Permutation_trans with (x :: Array_sort comparefn l).
    + apply insertInOrder_Permutation.
    + now apply perm_skip.
Qed.

(** [R a b]: [a] may stand right before [b]. *)
Variable R : A -> A -> Prop.
Hypothesis R_le : forall a b, comparefn a b <= 0 -> R a b.
Hypothesis R_gt : forall a b, 0 < comparefn a b -> R b a.

Lemma insertInOrder_HdRel (y x : A) (l : list A) :
  R y x -> HdRel R y l -> HdRel R y (insertInOrder comparefn x l).
Proof.
  intros Hyx Hl. destruct l as [|z l]; simpl.
  - now constructor.
  - destruct (comparefn x z <=? 0); constructor; [assumption|].
    now inversion Hl.
Qed.

Lemma insertInOrder_Sorted (x : A) (l : list A) :
  Sorted R l -> Sorted R (insertInOrder comparefn x l).
Proof.
  induction 1 as [|y l Hs IH Hd]; simpl.
  - repeat constructor.
  - destruct (Z.leb_spec (comparefn x y) 0) as [Hle|Hgt].
    + constructor; [now constructor | constructor; now apply R_le].
    + constructor; [exact IH|].
      apply insertInOrder_HdRel; [now apply R_gt | exact Hd].
Qed.

Lemma Array_sort_Sorted (l : list A) : Sorted R (Array_sort comparefn l).
Proof.
  induction l as [|x l IH]; simpl; [constructor|].
  now apply insertInOrder_Sorted.
Qed.
End SortFacts.

Lemma historyView_Permutation localeCompare mode history :
  Permutation (historyView localeCompare mode history) history.
Proof. destruct mode; apply Array_sort_Permutation. Qed.

Lemma historyView_time_desc localeCompare history :
  nonIncreasing (historyView localeCompare time_desc history).
Proof. apply Array_sort_Sorted; intros a b H; lia. Qed.

(** ** [Array_sort] against any stable sort *)

Section StableSort.
Context {A : Type} (comparefn : A -> A -> Z).

(** A consistent comparison function (ECMA-262, 23.1.3.30). *)
Hypothesis comparefn_trans :
  forall a b c, comparefn a b <= 0 -> comparefn b c <= 0 -> comparefn a c <= 0.
Hypothesis comparefn_flip :
  forall a b, comparefn a b <= 0 <-> 0 <= comparefn b a.

Lemma comparefn_refl (a : A) : comparefn a a = 0.
Proof. pose proof (comparefn_flip a a). lia. Qed.

Lemma comparefn_sym (a b : A) : comparefn a b = 0 -> comparefn b a = 0.
Proof. pose proof (comparefn_flip a b). pose proof (comparefn_flip b a). lia. Qed.

Lemma filter_rank_insertInOrder (a x : A) (l : list A) :
  List.filter (fun y => comparefn a y =? 0) (insertInOrder comparefn x l)
  = List.filter (fun y => comparefn a y =? 0) (x :: l).
Proof.
  induction l as [|y l IH]; [reflexivity|].
  cbn [insertInOrder]. destruct (Z.leb_spec (comparefn x y) 0) as [Hle|Hgt]; [reflexivity|].
  cbn [List.filter] in IH |- *. rewrite IH.
  destruct (Z.eqb_spec (comparefn a x) 0) as [Hx|Hx];
    destruct (Z.eqb_spec (comparefn a y) 0) as [Hy|Hy]; try reflexivity.
  exfalso. apply comparefn_sym in Hx.
  pose proof (comparefn_trans x a y). lia.
Qed.

Lemma filter_rank_Array_sort (a : A) (l : list A) :
  List.filter (fun y => comparefn a y =? 0) (Array_sort comparefn l)
  = List.filter (fun y => comparefn a y =? 0) l.
Proof.
  induction l as [|x l IH]; [reflexivity|].
  cbn [Array_sort]. rewrite filter_rank_insertInOrder.
  cbn [List.filter]. now rewrite IH.
Qed.

(** [Array_sort] is a stable sort. *)
Lemma Array_sort_stable (l : list A) : StableSortOf comparefn l (Array_sort comparefn l).
Proof.
  split; [|split].
  - apply Array_sort_Sorted; [trivial|]. intros a b H. apply comparefn_flip. lia.
  - apply Array_sort_Permutation.
  - intros a. apply filter_rank_Array_sort.
Qed.

Lemma filter_rank_nil (l : list A) :
  (forall a, List.filter (fun x => comparefn a x =? 0) l = []) -> l = [].
Proof.
  destruct l as [|y l]; [reflexivity|]. intros H. specialize (H y).
  cbn [List.filter] in H. rewrite comparefn_refl in H. discriminate H.
Qed.

Lemma In_filter_head (p : A -> bool) (x : A) (l r : list A) :
  List.filter p l = x :: r -> In x l.
Proof.
  intros H. assert (In x (List.filter p l)) as Hin by (rewrite H; now left).
  now apply filter_In in Hin.
Qed.

Lemma sorted_by_rank_unique (l1 : list A) :
  forall l2,
    StronglySorted (fun a b => comparefn a b <= 0) l1 ->
    StronglySorted (fun a b => comparefn a b <= 0) l2 ->
    (forall a, List.filter (fun x => comparefn a x =? 0) l1
               = List.filter (fun x => comparefn a x =? 0) l2) ->
    l1 = l2.
Proof.
  induction l1 as [|x l1 IH]; intros l2 S1 S2 Hf.
  - symmetry. apply filter_rank_nil. intros a. now rewrite <- Hf.
  - destruct l2 as [|y l2].
    { apply filter_rank_nil. intros a. now rewrite Hf. }
    inversion_clear S1 as [|? ? S1' F1]. inversion_clear S2 as [|? ? S2' F2].
    rewrite List.Forall_forall in F1, F2.
    assert (x = y) as <-.
    { pose proof (Hf x) as Hx. pose proof (Hf y) as Hy.
      cbn [List.filter] in Hx, Hy. rewrite comparefn_refl in Hx, Hy.
      destruct (Z.eqb_spec (comparefn x y) 0) as [E|E]; [now injection Hx|].
      destruct (Z.eqb_spec (comparefn y x) 0) as [E'|E'];
        [now apply comparefn_sym in E'|].
      symmetry in Hx. apply In_filter_head in Hx. apply In_filter_head in Hy.
      apply F2 in Hx. apply F1 in Hy.
      pose proof (comparefn_flip x y). lia. }
    f_equal. apply IH; try assumption.
    intros a. specialize (Hf a). cbn [List.filter] in Hf.
    destruct (comparefn a x =? 0); [now injection Hf | exact Hf].
Qed.

(** Whatever stable sort the engine runs, it returns what [Array_sort]
    returns. *)
Lemma stable_sort_is_Array_sort (l sorted : list A) :
  StableSortOf comparefn l sorted -> sorted = Array_sort comparefn l.
Proof.
  intros (S1 & _ & F1). destruct (Array_sort_stable l) as (S2 & _ & F2).
  assert (Relations_1.Transitive (fun a b : A => comparefn a b <= 0)) as Ht
    by (intros a b c; apply comparefn_trans).
  apply sorted_by_rank_unique.
  - now apply Sorted_StronglySorted.
  - now apply Sorted_StronglySorted.
  - intros a. now rewrite F1, F2.
Qed.
End StableSort.

(** The two comparison functions on timestamps are consistent, so in the
    time modes the view is the one any stable sort produces. *)
Lemma stable_sort_newest_first (l sorted : list AnswerHistoryItem.t) :
  StableSortOf (fun a b => AnswerHistoryItem.timestamp b - AnswerHistoryItem.timestamp a)
               l sorted ->
  forall localeCompare, sorted = historyView localeCompare time_desc l.
Proof.
  intros H localeCompare. apply stable_sort_is_Array_sort; [| |exact H]; intros; lia.
Qed.

Lemma stable_sort_oldest_first (l sorted : list AnswerHistoryItem.t) :
  StableSortOf (fun a b => AnswerHistoryItem.timestamp a - AnswerHistoryItem.timestamp b)
               l sorted ->
  forall localeCompare, sorted = historyView localeCompare time_asc l.
Proof.
  intros H localeCompare. apply stable_sort_is_Array_sort; [| |exact H]; intros; lia.
Qed.

(** What one call of [applySortingAndFiltering] does. *)
Lemma applySortingAndFiltering_run localeCompare (w : World) :
  applySortingAndFiltering localeCompare w =
  (Normal tt,
   {| this := set_filteredHistory
                (historyView localeCompare (currentSort (this w)) (answerHistory (this w)))
                (this w);
      localStorage := localStorage w;
      effects := effects w |}).
Proof. reflexivity. Qed.

(** ** C2 *)

(** C2.  [applySortingAndFiltering] is a function of the records and the
    mode: two worlds with the same [answerHistory] and [currentSort] get the
    same [filteredHistory], and nothing but [filteredHistory] changes.  In
    mode [time_desc] the timestamps of the view never go up.  For the
    records A (timestamp 100) and B (timestamp 200), in that order, newest
    first gives B, A and alphabetical ascending gives A, B -- the latter
    on a host whose collation puts the text A before the text B. *)
Theorem C2_sorting_is_a_function_of_records_and_mode
    (localeCompare : string -> string -> Z) :
  localeCompare "A" "B" < 0 ->
  (forall w1 w2,
      answerHistory (this w1) = answerHistory (this w2) ->
      currentSort (this w1) = currentSort (this w2) ->
      exists w1' w2',
        applySortingAndFiltering localeCompare w1 = (Normal tt, w1')
        /\ applySortingAndFiltering localeCompare w2 = (Normal tt, w2')
        /\ filteredHistory (this w1') = filteredHistory (this w2')
        /\ this w1' = set_filteredHistory (filteredHistory (this w1')) (this w1)
        /\ localStorage w1' = localStorage w1
        /\ effects w1' = effects w1)
  /\ (forall w w',
         currentSort (this w) = time_desc ->
         applySortingAndFiltering localeCompare w = (Normal tt, w') ->
         nonIncreasing (filteredHistory (this w')))
  /\ (forall a1 i1 a2 i2 w w',
         answerHistory (this w) = [AnswerHistoryItem.mk "A" a1 i1 100;
                                   AnswerHistoryItem.mk "B" a2 i2 200] ->
         applySortingAndFiltering localeCompare w = (Normal tt, w') ->
         (currentSort (this w) = time_desc ->
          filteredHistory (this w') = [AnswerHistoryItem.mk "B" a2 i2 200;
                                       AnswerHistoryItem.mk "A" a1 i1 100])
         /\ (currentSort (this w) = alpha_asc ->
             filteredHistory (this w') = [AnswerHistoryItem.mk "A" a1 i1 100;
                                          AnswerHistoryItem.mk "B" a2 i2 200])).
Proof.
  intros HAB. split; [|split].
  - intros w1 w2 Hh Hm. eexists _, _.
    rewrite !applySortingAndFiltering_run. split; [reflexivity|]. split; [reflexivity|].
    simpl. rewrite Hh, Hm. repeat split.
  - intros w w' Hm. rewrite applySortingAndFiltering_run. intros [= <-]. simpl.
    rewrite Hm. apply historyView_time_desc.
  - intros a1 i1 a2 i2 w w' Hh. rewrite applySortingAndFiltering_run. intros [= <-].
    simpl. rewrite Hh. split; intros ->; simpl.
    + reflexivity.
    + destruct (Z.leb_spec (localeCompare "A" "B") 0); [reflexivity | lia].
Qed.

(** C2 at the collation by code units, on the two records of the example. *)
Lemma C2_witness :
  codeUnitCompare "A" "B" < 0
  /\ nonIncreasing
       (filteredHistory (this (snd (applySortingAndFiltering codeUnitCompare (worldAB time_desc)))))
  /\ filteredHistory (this (snd (applySortingAndFiltering codeUnitCompare (worldAB alpha_asc))))
     = [AnswerHistoryItem.mk "A" "a" "1s" 100; AnswerHistoryItem.mk "B" "b" "2s" 200].
Proof.
  assert (codeUnitCompare "A" "B" < 0) as H by reflexivity.
  destruct (C2_sorting_is_a_function_of_records_and_mode codeUnitCompare H)
    as (_ & Hdesc & Hex).
  split; [exact H|]. split.
  - apply (Hdesc (worldAB time_desc)); reflexivity.
  - apply (Hex "a" "1s" "b" "2s" (worldAB alpha_asc)); reflexivity.
Defined.

(** ** C9 *)

(** C9.  [applySortingAndFiltering] leaves [answerHistory] as it is and
    sets [filteredHistory] to a permutation of it, in every mode and for
    every [localeCompare]. *)
Theorem C9_view_is_a_permutation_and_history_is_untouched
    (localeCompare : string -> string -> Z) (w : World) :
  exists w',
    applySortingAndFiltering localeCompare w = (Normal tt, w')
    /\ answerHistory (this w') = answerHistory (this w)
    /\ Permutation (filteredHistory (this w')) (answerHistory (this w)).
Proof.
  eexists. rewrite applySortingAndFiltering_run. split; [reflexivity|].
  split; [reflexivity|]. apply historyView_Permutation.
Qed.

(* ================================================================== *)
(** * Proofs: persistence *)
(* ================================================================== *)

Lemma bind_run {A B} (m : M A) (f : A -> M B) (w : World) :
  (m ≫= f) w =
  match m w with
  | (Normal a, w') => f a w'
  | (Throws e, w') => (Throws e, w')
  | (Unmodelled, w') => (Unmodelled, w')
  end.
Proof. reflexivity. Qed.

Lemma persistedAgrees_stored (w : World) :
  items (localStorage w) !! historyKey
  = Some (JSON_stringify (historyToJson (answerHistory (this w)))) ->
  persistedAgrees w.
Proof.
  intros H. unfold persistedAgrees.
  rewrite (load_stored_history (answerHistory (this w)) (reload w)) by exact H.
  eexists. split; reflexivity.
Qed.

Lemma appendAndSave_accepted (w : World) (item : AnswerHistoryItem.t) :
  accepts (localStorage w) historyKey
          (JSON_stringify (historyToJson (answerHistory (this w) ++ [item]))) = true ->
  appendAndSave item w =
  (Normal tt,
   {| this := set_answerHistory (answerHistory (this w) ++ [item]) (this w);
      localStorage :=
        {| items := <[historyKey := JSON_stringify
                                      (historyToJson (answerHistory (this w) ++ [item]))]>
                      (items (localStorage w));
           accepts := accepts (localStorage w) |};
      effects := effects w ++ [ConsoleLog [LStr "History saved to local storage."]] |}).
Proof.
  intros H. unfold appendAndSave, block, answerHistory_push.
  rewrite !bind_run. cbn [get assign]. rewrite bind_run.
  rewrite save_accepted by exact H. reflexivity.
Qed.

(** ** C3 *)

(** C3 (amended).  When the storage area takes the write, appending a
    record and saving, then loading in a new component over the same
    storage (a page reload), gives the list that was in memory after the
    append: same records, same order, for every history and every record. *)
Theorem C3_append_save_load_round_trip (w : World) (item : AnswerHistoryItem.t) :
  accepts (localStorage w) historyKey
          (JSON_stringify (historyToJson (answerHistory (this w) ++ [item]))) = true ->
  exists w1 w2,
    appendAndSave item w = (Normal tt, w1)
    /\ answerHistory (this w1) = answerHistory (this w) ++ [item]
    /\ loadHistoryFromLocalStorage (reload w1) = (Normal tt, w2)
    /\ answerHistory (this w2) = answerHistory (this w1).
Proof.
  intros H. rewrite (appendAndSave_accepted w item H).
  eexists _, _. split; [reflexivity|]. split; [reflexivity|].
  rewrite (load_stored_history (answerHistory (this w) ++ [item])).
  - split; reflexivity.
  - unfold reload, freshWorld. cbn [localStorage items]. apply lookup_insert_eq.
Qed.

(** C3 (amended) at a new component over an area that takes every write. *)
Lemma C3_witness :
  accepts roomyStorage historyKey
          (JSON_stringify (historyToJson ([] ++ [recordA]))) = true
  /\ exists w1 w2,
       appendAndSave recordA (freshWorld roomyStorage) = (Normal tt, w1)
       /\ answerHistory (this w1) = [] ++ [recordA]
       /\ loadHistoryFromLocalStorage (reload w1) = (Normal tt, w2)
       /\ answerHistory (this w2) = answerHistory (this w1).
Proof.
  split; [reflexivity|].
  apply (C3_append_save_load_round_trip (freshWorld roomyStorage) recordA).
  reflexivity.
Defined.

(** C3 as stated fails where the storage area refuses the write (a browser
    that grants the page no quota): the record is in memory, the failure is
    logged, nothing is stored, and a reload starts from an empty history. *)
Lemma C3_counterexample :
  answerHistory (this worldAfterRefusedSave) = [recordA]
  /\ effects worldAfterRefusedSave
     = [ConsoleError [LStr "Failed to save history to local storage";
                      LExn QuotaExceededError]]
  /\ answerHistory (this (snd (loadHistoryFromLocalStorage (reload worldAfterRefusedSave)))) = []
  /\ ~ persistedAgrees worldAfterRefusedSave.
Proof.
  split; [reflexivity|]. split; [reflexivity|]. split; [reflexivity|].
  intros (w' & Hload & Hsame).
  assert (answerHistory (this w') = []) as Hnil.
  { change w' with (snd (Normal tt, w')). rewrite <- Hload. reflexivity. }
  rewrite Hnil in Hsame. discriminate Hsame.
Qed.

(** The [next] callback sets the three display fields, appends and saves,
    recomputes the view and empties the input. *)
Lemma sendQuestion_next_accepted localeCompare currentQuestion now response (w : World) :
  accepts (localStorage w) historyKey
          (JSON_stringify (historyToJson
             (answerHistory (this w) ++ [newHistoryItem currentQuestion now response]))) = true ->
  let item := newHistoryItem currentQuestion now response in
  let history := answerHistory (this w) ++ [item] in
  sendQuestion_next localeCompare currentQuestion now response w =
  (Normal tt,
   {| this :=
        set_question ""
          (set_filteredHistory (historyView localeCompare (currentSort (this w)) history)
             (set_answerHistory history
                (set_isLoading false
                   (set_inferenceTime (AnswerHistoryItem.inferenceTime item)
                      (set_answer (AnswerHistoryItem.answer item) (this w))))));
      localStorage :=
        {| items := <[historyKey := JSON_stringify (historyToJson history)]>
                      (items (localStorage w));
           accepts := accepts (localStorage w) |};
      effects := effects w ++ [ConsoleLog [LStr "History saved to local storage."]] |}).
Proof.
  intros H item history.
  unfold sendQuestion_next, sendQuestion_next_stmts, block, answerHistory_push.
  repeat (rewrite bind_run; cbn [get assign]).
  rewrite save_accepted by exact H.
  reflexivity.
Qed.

Lemma storedBeforeView_next localeCompare currentQuestion now response (w : World) :
  accepts (localStorage w) historyKey
          (JSON_stringify (historyToJson
             (answerHistory (this w) ++ [newHistoryItem currentQuestion now response]))) = true ->
  storedBeforeView (sendQuestion_next_stmts localeCompare currentQuestion now response) w.
Proof.
  intros Hacc k w1 w2 H1 H2 Hne.
  unfold after, sendQuestion_next_stmts in H1, H2.
  destruct k as [|[|[|[|[|[|[|k]]]]]]].
  8: { rewrite take_ge in H1 by (simpl; lia). rewrite take_ge in H2 by (simpl; lia).
       rewrite H1 in H2. injection H2 as <-. now destruct Hne. }
  all: cbn [take] in H1, H2;
    unfold block, answerHistory_push in H1, H2;
    repeat (rewrite bind_run in H1
            || (progress cbn [get assign this localStorage effects] in H1)
            || (progress unfold mret, M_ret in H1)
            || (rewrite save_accepted in H1 by exact Hacc)
            || rewrite applySortingAndFiltering_run in H1);
    repeat (rewrite bind_run in H2
            || (progress cbn [get assign this localStorage effects] in H2)
            || (progress unfold mret, M_ret in H2)
            || (rewrite save_accepted in H2 by exact Hacc)
            || rewrite applySortingAndFiltering_run in H2);
    injection H1 as <-; injection H2 as <-;
    try (exfalso; apply Hne; reflexivity).
  apply persistedAgrees_stored. cbn [localStorage items]. apply lookup_insert_eq.
Qed.

Lemma load_absent (w : World) :
  items (localStorage w) !! historyKey = None ->
  loadHistoryFromLocalStorage w = (Normal tt, w).
Proof.
  intros H. unfold loadHistoryFromLocalStorage, try_catch, localStorage_getItem.
  rewrite bind_run. rewrite H. destruct w; reflexivity.
Qed.

(** What a confirmed [clearHistory()] does. *)
Lemma clearHistory_confirmed (w : World) :
  clearHistory true w =
  (Normal tt,
   {| this := set_filteredHistory [] (set_answerHistory [] (this w));
      localStorage := {| items := delete historyKey (items (localStorage w));
                         accepts := accepts (localStorage w) |};
      effects := effects w ++ [Confirm "Are you sure you want to clear all history?" true;
                               ConsoleLog [LStr "History cleared."]] |}).
Proof.
  unfold clearHistory, confirm, clearHistory_stmts, block.
  repeat (rewrite bind_run;
          cbn [assign localStorage_removeItem console_log emit mret M_ret
               this localStorage effects]).
  now rewrite <- app_assoc.
Qed.

(** What a declined [clearHistory()] does: the dialog, and nothing else. *)
Lemma clearHistory_declined (w : World) :
  clearHistory false w =
  (Normal tt,
   {| this := this w;
      localStorage := localStorage w;
      effects := effects w ++ [Confirm "Are you sure you want to clear all history?" false] |}).
Proof. reflexivity. Qed.

(** ** C8 *)

(** C8 (amended).  Append: when the storage area takes the write, the
    [next] callback rewrites the stored blob right after the push and
    before it recomputes the view -- no statement of it changes
    [filteredHistory] from a world whose blob disagrees with the history in
    memory -- and it ends with the blob being the text of the history in
    memory.  Clear: a confirmed [clearHistory()] ends with the history
    empty in memory and the key absent from storage, which a reload reads
    as the empty history; on the way, the history and the view are emptied
    first, with storage still untouched, and the key is removed after. *)
Theorem C8_storage_follows_every_mutation (localeCompare : string -> string -> Z) :
  (forall currentQuestion now response w,
      accepts (localStorage w) historyKey
              (JSON_stringify (historyToJson
                 (answerHistory (this w) ++ [newHistoryItem currentQuestion now response])))
      = true ->
      storedBeforeView (sendQuestion_next_stmts localeCompare currentQuestion now response) w
      /\ exists w',
           sendQuestion_next localeCompare currentQuestion now response w = (Normal tt, w')
           /\ answerHistory (this w')
              = answerHistory (this w) ++ [newHistoryItem currentQuestion now response]
           /\ items (localStorage w') !! historyKey
              = Some (JSON_stringify (historyToJson (answerHistory (this w'))))
           /\ persistedAgrees w')
  /\ (forall w,
         exists w',
           clearHistory true w = (Normal tt, w')
           /\ answerHistory (this w') = []
           /\ items (localStorage w') !! historyKey = None
           /\ persistedAgrees w')
  /\ (forall w,
         exists w2,
           after 2 clearHistory_stmts w = (Normal tt, w2)
           /\ answerHistory (this w2) = []
           /\ filteredHistory (this w2) = []
           /\ localStorage w2 = localStorage w).
Proof.
  split; [|split].
  - intros currentQuestion now response w Hacc. split.
    + now apply storedBeforeView_next.
    + rewrite (sendQuestion_next_accepted _ _ _ _ _ Hacc).
      eexists. split; [reflexivity|]. split; [reflexivity|].
      assert (forall (h : list AnswerHistoryItem.t) (m : gmap string string),
                 <[historyKey := JSON_stringify (historyToJson h)]> m !! historyKey
                 = Some (JSON_stringify (historyToJson h))) as Hlook
        by (intros; apply lookup_insert_eq).
      split; [apply Hlook|]. apply persistedAgrees_stored. apply Hlook.
  - intros w. rewrite clearHistory_confirmed. eexists. split; [reflexivity|].
    split; [reflexivity|].
    assert (forall m : gmap string string, delete historyKey m !! historyKey = None)
      as Hgone by (intros; apply lookup_delete_eq).
    split; [apply Hgone|].
    unfold persistedAgrees. rewrite load_absent by apply Hgone.
    eexists. split; reflexivity.
  - intros w. eexists. split; [reflexivity|]. repeat split.
Qed.

(** C8 (amended) at a new component over an area that takes every write. *)
Lemma C8_witness :
  accepts (localStorage (freshWorld roomyStorage)) historyKey
          (JSON_stringify (historyToJson
             (answerHistory (this (freshWorld roomyStorage))
              ++ [newHistoryItem "A" 100 (AskResponse.mk (FText "a") (FText "1s"))])))
  = true
  /\ storedBeforeView
       (sendQuestion_next_stmts codeUnitCompare "A" 100
          (AskResponse.mk (FText "a") (FText "1s")))
       (freshWorld roomyStorage)
  /\ persistedAgrees worldWithOneRecord.
Proof.
  assert (accepts (localStorage (freshWorld roomyStorage)) historyKey
            (JSON_stringify (historyToJson
               (answerHistory (this (freshWorld roomyStorage))
                ++ [newHistoryItem "A" 100 (AskResponse.mk (FText "a") (FText "1s"))])))
          = true) as H by reflexivity.
  destruct (C8_storage_follows_every_mutation codeUnitCompare) as (Happend & _ & _).
  destruct (Happend "A" 100 (AskResponse.mk (FText "a") (FText "1s"))
                    (freshWorld roomyStorage) H) as (Horder & w' & Hrun & _ & _ & Hagree).
  split; [exact H|]. split; [exact Horder|].
  unfold worldWithOneRecord. rewrite Hrun. exact Hagree.
Defined.

(** C8 as stated fails for clear: [clearHistory()] empties the history,
    then empties the view, and only then removes the key.  From a world
    with one saved record, after its first two statements the history and
    the view are empty while the stored blob still holds the record. *)
Lemma C8_counterexample :
  answerHistory (this worldWithOneRecord) = [recordA]
  /\ filteredHistory (this worldWithOneRecord) = [recordA]
  /\ (exists w2,
         after 2 clearHistory_stmts worldWithOneRecord = (Normal tt, w2)
         /\ answerHistory (this w2) = []
         /\ filteredHistory (this w2) = []
         /\ items (localStorage w2) !! historyKey
            = Some (JSON_stringify (historyToJson [recordA])))
  /\ ~ storedBeforeView clearHistory_stmts worldWithOneRecord.
Proof.
  split; [reflexivity|]. split; [reflexivity|]. split.
  - eexists. split; [reflexivity|]. split; [reflexivity|]. split; [reflexivity|].
    vm_compute. reflexivity.
  - intros H.
    destruct (H 1%nat (snd (after 1 clearHistory_stmts worldWithOneRecord))
                (snd (after 2 clearHistory_stmts worldWithOneRecord))
                eq_refl eq_refl) as (w' & Hload & Hsame).
    + discriminate.
    + assert (answerHistory (this w') = [recordA]) as Hone.
      { change w' with (snd (Normal tt, w')). rewrite <- Hload. vm_compute. reflexivity. }
      rewrite Hone in Hsame. discriminate Hsame.
Qed.

(** A blob that does not parse: the failure is logged and the history in
    memory is reset. *)
Lemma load_unparsable (w : World) (blob : string) :
  items (localStorage w) !! historyKey = Some blob ->
  isEmptyString blob = false ->
  JSON_parse blob = PSyntaxError ->
  loadHistoryFromLocalStorage w =
  (Normal tt,
   {| this := set_answerHistory [] (this w);
      localStorage := localStorage w;
      effects := effects w ++ [ConsoleError [LStr "Failed to load history from local storage";
                                             LExn SyntaxError]] |}).
Proof.
  intros Hget Hne Hparse.
  unfold loadHistoryFromLocalStorage, try_catch, localStorage_getItem.
  rewrite bind_run, Hget, Hne. unfold JSON_parse_call.
  rewrite bind_run, Hparse. reflexivity.
Qed.

(** The empty blob is not even parsed. *)
Lemma load_empty_blob (w : World) :
  items (localStorage w) !! historyKey = Some "" ->
  loadHistoryFromLocalStorage w = (Normal tt, w).
Proof.
  intros Hget. unfold loadHistoryFromLocalStorage, try_catch, localStorage_getItem.
  rewrite bind_run, Hget. destruct w; reflexivity.
Qed.

Lemma isEmptyString_false (s : string) : isEmptyString s = false <-> s <> "".
Proof. unfold isEmptyString. apply String.eqb_neq. Qed.

(** ** C6 *)

(** C6.  When the blob stored under the key does not parse as JSON, a new
    component that loads it ends normally (no exception reaches the caller)
    with an empty history; storage is left as it was and the only effect is
    an error line on the console.  [ngOnInit] as a whole then ends normally
    with an empty history and an empty view.  A component that already had
    a history and loads a non-empty damaged blob has it reset to empty. *)
Theorem C6_unparsable_blob_is_dropped (st : Storage) (blob : string) :
  items st !! historyKey = Some blob ->
  JSON_parse blob = PSyntaxError ->
  (exists w',
      loadHistoryFromLocalStorage (freshWorld st) = (Normal tt, w')
      /\ answerHistory (this w') = []
      /\ localStorage w' = st
      /\ forall e, In e (effects w') -> exists args, e = ConsoleError args)
  /\ (forall localeCompare, exists w',
         ngOnInit localeCompare (freshWorld st) = (Normal tt, w')
         /\ answerHistory (this w') = []
         /\ filteredHistory (this w') = [])
  /\ (forall w, localStorage w = st -> blob <> "" ->
         exists w',
           loadHistoryFromLocalStorage w = (Normal tt, w')
           /\ answerHistory (this w') = []).
Proof.
  intros Hget Hparse.
  assert (forall w, localStorage w = st -> blob <> "" ->
            loadHistoryFromLocalStorage w =
            (Normal tt,
             {| this := set_answerHistory [] (this w);
                localStorage := localStorage w;
                effects := effects w
                           ++ [ConsoleError [LStr "Failed to load history from local storage";
                                             LExn SyntaxError]] |})) as Hbad.
  { intros w Hst Hne. apply (load_unparsable w blob); [now rewrite Hst | | assumption].
    now apply isEmptyString_false. }
  assert (forall w, localStorage w = st -> blob = "" ->
            loadHistoryFromLocalStorage w = (Normal tt, w)) as Hempty.
  { intros w Hst ->. apply load_empty_blob. now rewrite Hst. }
  destruct (string_dec blob "") as [E|E]; (split; [|split]).
  - rewrite Hempty by (trivial). eexists. split; [reflexivity|]. repeat split.
    intros e [].
  - intros lc. unfold ngOnInit, checkApiStatus, ApiService.checkStatus.
    repeat (rewrite bind_run; cbn [assign emit this localStorage effects]).
    rewrite Hempty by trivial. rewrite applySortingAndFiltering_run.
    eexists. split; [reflexivity|]. split; reflexivity.
  - intros w _ Hne. now destruct Hne.
  - rewrite Hbad by trivial. eexists. split; [reflexivity|]. repeat split.
    intros e [<-|[]]. eauto.
  - intros lc. unfold ngOnInit, checkApiStatus, ApiService.checkStatus.
    repeat (rewrite bind_run; cbn [assign emit this localStorage effects]).
    rewrite Hbad by trivial. rewrite applySortingAndFiltering_run.
    eexists. split; [reflexivity|]. split; reflexivity.
  - intros w Hst Hne. rewrite Hbad by trivial. eexists. split; reflexivity.
Qed.

(** C6 at a storage area whose blob is cut short. *)
Lemma C6_witness :
  items damagedStorage !! historyKey = Some "{oops"
  /\ JSON_parse "{oops" = PSyntaxError
  /\ exists w',
       loadHistoryFromLocalStorage (freshWorld damagedStorage) = (Normal tt, w')
       /\ answerHistory (this w') = []
       /\ localStorage w' = damagedStorage.
Proof.
  assert (items damagedStorage !! historyKey = Some "{oops") as H1 by (vm_compute; reflexivity).
  assert (JSON_parse "{oops" = PSyntaxError) as H2 by reflexivity.
  destruct (C6_unparsable_blob_is_dropped damagedStorage "{oops" H1 H2)
    as ((w' & Hrun & Hnil & Hst & _) & _).
  split; [exact H1|]. split; [exact H2|].
  exists w'. repeat split; assumption.
Defined.

(* ================================================================== *)
(** * Proofs: submission *)
(* ================================================================== *)

(** [sendQuestion()] on a question that is not blank: the display fields
    are reset, [isLoading] is raised and the request is sent -- whatever
    [apiStatus] and [isLoading] were. *)
Lemma sendQuestion_submits (w : World) :
  isEmptyString (trim (question (this w))) = false ->
  sendQuestion w =
  (Normal tt,
   {| this := set_errorMessage ""
                (set_inferenceTime "" (set_answer "" (set_isLoading true (this w))));
      localStorage := localStorage w;
      effects := effects w
                 ++ [HttpPost askUrl (JObj [("query", JStr (question (this w)))])] |}).
Proof.
  intros H. unfold sendQuestion. rewrite bind_run. cbn [get]. rewrite H.
  repeat (rewrite bind_run; cbn [get assign this localStorage effects]).
  reflexivity.
Qed.

(** [sendQuestion()] on a blank question. *)
Lemma sendQuestion_blank (w : World) :
  isEmptyString (trim (question (this w))) = true ->
  sendQuestion w =
  (Normal tt,
   {| this := set_errorMessage "Please enter a question." (this w);
      localStorage := localStorage w;
      effects := effects w |}).
Proof.
  intros H. unfold sendQuestion. rewrite bind_run. cbn [get]. now rewrite H.
Qed.

(** The button path: a disabled button does nothing. *)
Lemma click_on_disabled_button localeCompare (w : World) :
  getAnswerDisabled (this w) = true ->
  dispatch localeCompare GetAnswerClick w = (Normal tt, w).
Proof.
  intros H. unfold dispatch. rewrite bind_run. cbn [get]. now rewrite H.
Qed.

(** The button is disabled exactly when a submission is loading or the
    status is not [Ready]. *)
Lemma getAnswerDisabled_spec (c : AppComponent) :
  getAnswerDisabled c = true <-> isLoading c = true \/ apiStatus c <> "Ready".
Proof.
  unfold getAnswerDisabled. rewrite orb_true_iff, negb_true_iff, String.eqb_neq.
  reflexivity.
Qed.

(** ** C1 *)

(** C1 (the code departs from it).  With the status check failed
    ([apiStatus] is [Error]) the button is disabled and a click sends
    nothing, but Enter in the textarea runs [sendQuestion()], which tests
    neither [apiStatus] nor [isLoading]: the question is posted.  Likewise,
    with a first submission still loading, Enter posts the question a
    second time. *)
Theorem C1_enter_key_submits_past_the_gate :
  (apiStatus (this worldBackendDown) = "Error"
   /\ isLoading (this worldBackendDown) = false
   /\ getAnswerDisabled (this worldBackendDown) = true
   /\ dispatch codeUnitCompare GetAnswerClick worldBackendDown = (Normal tt, worldBackendDown)
   /\ exists w',
        dispatch codeUnitCompare QuestionKeyupEnter worldBackendDown = (Normal tt, w')
        /\ isLoading (this w') = true
        /\ effects w'
           = effects worldBackendDown
             ++ [HttpPost askUrl (JObj [("query", JStr (typedQuestion +:+ lineFeed))])])
  /\ (apiStatus (this worldLoading) = "Ready"
      /\ isLoading (this worldLoading) = true
      /\ getAnswerDisabled (this worldLoading) = true
      /\ In (HttpPost askUrl (JObj [("query", JStr (typedQuestion +:+ lineFeed))]))
            (effects worldLoading)
      /\ exists w',
           dispatch codeUnitCompare QuestionKeyupEnter worldLoading = (Normal tt, w')
           /\ effects w'
              = effects worldLoading
                ++ [HttpPost askUrl
                      (JObj [("query", JStr (typedQuestion +:+ lineFeed +:+ lineFeed))])]).
Proof.
  split.
  - split; [vm_compute; reflexivity|]. split; [vm_compute; reflexivity|].
    split; [vm_compute; reflexivity|]. split; [vm_compute; reflexivity|].
    exists (snd (dispatch codeUnitCompare QuestionKeyupEnter worldBackendDown)).
    split; [vm_compute; reflexivity|]. split; vm_compute; reflexivity.
  - split; [vm_compute; reflexivity|]. split; [vm_compute; reflexivity|].
    split; [vm_compute; reflexivity|].
    split; [vm_compute; right; left; reflexivity|].
    exists (snd (dispatch codeUnitCompare QuestionKeyupEnter worldLoading)).
    split; vm_compute; reflexivity.
Qed.

(** ** C4 *)

(** C4.  The [error] callback of a submission ends with [isLoading] false
    and a non-empty [errorMessage]; the history, the view and the storage
    are what they were, and the only effect is an error line on the
    console.  Before it, a submission had raised [isLoading]. *)
Theorem C4_failed_submission_goes_idle_and_keeps_history
    (err : HttpErrorResponse) (w : World) :
  exists w',
    sendQuestion_error err w = (Normal tt, w')
    /\ isLoading (this w') = false
    /\ errorMessage (this w') <> ""
    /\ answerHistory (this w') = answerHistory (this w)
    /\ filteredHistory (this w') = filteredHistory (this w)
    /\ localStorage w' = localStorage w
    /\ effects w' = effects w ++ [ConsoleError [LStr "Ask Question Error:"; LHttp err]].
Proof.
  eexists. split; [reflexivity|]. repeat split. discriminate.
Qed.

(** A submission followed by its failure: loading, then idle again. *)
Lemma submission_then_failure (err : HttpErrorResponse) (w : World) :
  isEmptyString (trim (question (this w))) = false ->
  exists w1 w2,
    sendQuestion w = (Normal tt, w1)
    /\ isLoading (this w1) = true
    /\ sendQuestion_error err w1 = (Normal tt, w2)
    /\ isLoading (this w2) = false
    /\ answerHistory (this w2) = answerHistory (this w)
    /\ localStorage w2 = localStorage w.
Proof.
  intros H. rewrite (sendQuestion_submits w H). eexists _, _. repeat split.
Qed.

(** ** C5 *)

Lemma trimStart_allWhiteSpace (s : string) : allWhiteSpace s = true -> trimStart s = "".
Proof.
  induction s as [|c s IH]; simpl; [reflexivity|].
  intros H. apply andb_true_iff in H as [-> H]. now apply IH.
Qed.

Lemma trim_allWhiteSpace (s : string) : allWhiteSpace s = true -> trim s = "".
Proof. intros H. unfold trim. now rewrite trimStart_allWhiteSpace. Qed.

Lemma trimStart_head (s : string) :
  match trimStart s with
  | EmptyString => allWhiteSpace s = true
  | String c _ => isWhiteSpace c = false
  end.
Proof.
  induction s as [|c s IH]; simpl; [reflexivity|].
  destruct (isWhiteSpace c) eqn:E; simpl; [exact IH | exact E].
Qed.

Lemma trimEnd_empty (s : string) : trimEnd s = "" -> allWhiteSpace s = true.
Proof.
  induction s as [|c s IH]; simpl; [reflexivity|].
  destruct (trimEnd s); [|discriminate].
  destruct (isWhiteSpace c); [auto | discriminate].
Qed.

(** [!question.trim()] holds exactly for the strings of white space. *)
Lemma trim_empty_iff (s : string) : trim s = "" <-> allWhiteSpace s = true.
Proof.
  split; [|apply trim_allWhiteSpace].
  unfold trim. intros H. pose proof (trimStart_head s) as Hh.
  destruct (trimStart s) as [|c r] eqn:E; [exact Hh|].
  apply trimEnd_empty in H. simpl in H. rewrite Hh in H. discriminate H.
Qed.

(** C5.  On a question that is empty or all white space, [sendQuestion()]
    sets [errorMessage] and returns: no effect at all (so no request), and
    every other field, the storage included, as it was.  Enter in the
    textarea does the same. *)
Theorem C5_blank_question_is_not_sent (localeCompare : string -> string -> Z) (w : World) :
  allWhiteSpace (question (this w)) = true ->
  exists w',
    sendQuestion w = (Normal tt, w')
    /\ dispatch localeCompare QuestionKeyupEnter w = (Normal tt, w')
    /\ effects w' = effects w
    /\ errorMessage (this w') = "Please enter a question."
    /\ this w' = set_errorMessage "Please enter a question." (this w)
    /\ answerHistory (this w') = answerHistory (this w)
    /\ answer (this w') = answer (this w)
    /\ isLoading (this w') = isLoading (this w)
    /\ localStorage w' = localStorage w.
Proof.
  intros H. apply trim_allWhiteSpace in H.
  assert (isEmptyString (trim (question (this w))) = true) as Hb by now rewrite H.
  cbn [dispatch]. rewrite (sendQuestion_blank w Hb).
  eexists. repeat split.
Qed.

(** C5 at a question of three spaces. *)
Lemma C5_witness :
  allWhiteSpace (question (this worldBlankQuestion)) = true
  /\ exists w',
       sendQuestion worldBlankQuestion = (Normal tt, w')
       /\ effects w' = []
       /\ errorMessage (this w') = "Please enter a question.".
Proof.
  assert (allWhiteSpace (question (this worldBlankQuestion)) = true) as H by reflexivity.
  destruct (C5_blank_question_is_not_sent codeUnitCompare worldBlankQuestion H)
    as (w' & Hrun & _ & Heff & Hmsg & _).
  split; [exact H|]. exists w'. repeat split; assumption.
Defined.

(** ** C7 *)

(** C7.  [clearHistory()] asks for confirmation first.  Confirmed, it ends
    with the history and the view empty and the key absent from storage.
    Declined, it changes nothing: the dialog is its only effect. *)
Theorem C7_clear_needs_confirmation_and_empties_both (w : World) :
  (exists w',
      clearHistory true w = (Normal tt, w')
      /\ answerHistory (this w') = []
      /\ filteredHistory (this w') = []
      /\ items (localStorage w') !! historyKey = None
      /\ effects w' = effects w ++ [Confirm "Are you sure you want to clear all history?" true;
                                    ConsoleLog [LStr "History cleared."]])
  /\ (exists w',
         clearHistory false w = (Normal tt, w')
         /\ this w' = this w
         /\ localStorage w' = localStorage w
         /\ effects w' = effects w ++ [Confirm "Are you sure you want to clear all history?" false]).
Proof.
  split.
  - rewrite clearHistory_confirmed. eexists. repeat split.
    cbn [localStorage items]. apply lookup_delete_eq.
  - rewrite clearHistory_declined. eexists. repeat split.
Qed.

(** ** C10 *)

(** The [next] callback is: three assignments, the append of the history
    store, the view, the input. *)
Lemma sendQuestion_next_appends localeCompare currentQuestion now response (w : World) :
  sendQuestion_next localeCompare currentQuestion now response w =
  (block [assign (set_answer (orElse (AskResponse.answer response) "No answer received."));
          assign (set_inferenceTime (orElse (AskResponse.inference_time response) "N/A"));
          assign (set_isLoading false);
          appendAndSave (newHistoryItem currentQuestion now response);
          applySortingAndFiltering localeCompare;
          assign (set_question "")]) w.
Proof.
  unfold sendQuestion_next, sendQuestion_next_stmts, appendAndSave, block,
    answerHistory_push, newHistoryItem.
  repeat (rewrite bind_run; cbn [get assign this localStorage effects]).
  cbn -[saveHistoryToLocalStorage applySortingAndFiltering].
  match goal with
  | |- context [saveHistoryToLocalStorage ?w1] =>
    destruct (saveHistoryToLocalStorage w1) as [[[]| |] ?]
  end; reflexivity.
Qed.

(** The fields of the component after the [next] callback, whether or not
    the storage area took the write. *)
Lemma sendQuestion_next_fields localeCompare currentQuestion now response (w : World) :
  exists w',
    sendQuestion_next localeCompare currentQuestion now response w = (Normal tt, w')
    /\ this w' =
       set_question ""
         (set_filteredHistory
            (historyView localeCompare (currentSort (this w))
               (answerHistory (this w) ++ [newHistoryItem currentQuestion now response]))
            (set_answerHistory
               (answerHistory (this w) ++ [newHistoryItem currentQuestion now response])
               (set_isLoading false
                  (set_inferenceTime
                     (orElse (AskResponse.inference_time response) "N/A")
                     (set_answer (orElse (AskResponse.answer response) "No answer received.")
                                 (this w)))))).
Proof.
  destruct (accepts (localStorage w) historyKey
              (JSON_stringify (historyToJson
                 (answerHistory (this w) ++ [newHistoryItem currentQuestion now response]))))
    eqn:Hacc.
  - rewrite (sendQuestion_next_accepted _ _ _ _ _ Hacc). eexists. split; reflexivity.
  - unfold sendQuestion_next, sendQuestion_next_stmts, block, answerHistory_push.
    repeat (rewrite bind_run; cbn [get assign]).
    rewrite save_refused by exact Hacc.
    eexists. split; reflexivity.
Qed.

Lemma orElse_falsy (f : Field) (fallback : string) :
  truthy f = false -> orElse f fallback = fallback.
Proof.
  destruct f as [| | | |s]; try reflexivity.
  simpl. destruct (String.eqb s ""); [reflexivity | discriminate].
Qed.

(** C10.  After a successful response the callback always appends one
    record, carrying the question and the time of the call.  When the
    [answer] field is absent, [null], [false], [0] or the empty string, the
    answer shown and the answer of the record are [No answer received.];
    when [inference_time] is, the time shown and the time of the record
    are [N/A]. *)
Theorem C10_falsy_fields_get_default_texts
    (localeCompare : string -> string -> Z) (currentQuestion : string) (now : Z)
    (response : AskResponse.t) (w : World) :
  exists w' item,
    sendQuestion_next localeCompare currentQuestion now response w = (Normal tt, w')
    /\ answerHistory (this w') = answerHistory (this w) ++ [item]
    /\ AnswerHistoryItem.question item = currentQuestion
    /\ AnswerHistoryItem.timestamp item = now
    /\ AnswerHistoryItem.answer item = answer (this w')
    /\ AnswerHistoryItem.inferenceTime item = inferenceTime (this w')
    /\ (truthy (AskResponse.answer response) = false ->
        answer (this w') = "No answer received."
        /\ AnswerHistoryItem.answer item = "No answer received.")
    /\ (truthy (AskResponse.inference_time response) = false ->
        inferenceTime (this w') = "N/A"
        /\ AnswerHistoryItem.inferenceTime item = "N/A").
Proof.
  destruct (sendQuestion_next_fields localeCompare currentQuestion now response w)
    as (w' & Hrun & Hthis).
  exists w', (newHistoryItem currentQuestion now response).
  split; [exact Hrun|]. rewrite Hthis. cbn.
  repeat split; now apply orElse_falsy.
Qed.

(** C10 at a response with no [answer] and an empty [inference_time]. *)
Lemma C10_witness :
  truthy FAbsent = false /\ truthy (FText "") = false
  /\ exists w' item,
       sendQuestion_next codeUnitCompare "Q" 100 (AskResponse.mk FAbsent (FText ""))
                         (freshWorld roomyStorage) = (Normal tt, w')
       /\ answerHistory (this w') = [item]
       /\ answer (this w') = "No answer received."
       /\ AnswerHistoryItem.answer item = "No answer received."
       /\ inferenceTime (this w') = "N/A"
       /\ AnswerHistoryItem.inferenceTime item = "N/A".
Proof.
  split; [reflexivity|]. split; [reflexivity|].
  destruct (C10_falsy_fields_get_default_texts codeUnitCompare "Q" 100
              (AskResponse.mk FAbsent (FText "")) (freshWorld roomyStorage))
    as (w' & item & Hrun & Hhist & _ & _ & _ & _ & Ha & Hi).
  exists w', item.
  destruct (Ha eq_refl) as (Ha1 & Ha2). destruct (Hi eq_refl) as (Hi1 & Hi2).
  repeat split; assumption.
Defined.

(* ================================================================== *)
(** * Proofs: the methods one by one *)
(* ================================================================== *)

Lemma world_eta (w : World) :
  {| this := this w; localStorage := localStorage w; effects := effects w |} = w.
Proof. now destruct w. Qed.


(** The ways [loadHistoryFromLocalStorage()] can end. *)
Lemma load_cases (w : World) :
  loadHistoryFromLocalStorage w = (Normal tt, w)
  \/ loadHistoryFromLocalStorage w = (Unmodelled, w)
  \/ (exists h,
         loadHistoryFromLocalStorage w =
         (Normal tt,
          {| this := set_answerHistory h (this w);
             localStorage := localStorage w;
             effects := effects w
                        ++ [ConsoleLog [LStr "History loaded from local storage:";
                                        LNum (Z.of_nat (length h)); LStr "items"]] |}))
  \/ (exists e,
         loadHistoryFromLocalStorage w =
         (Normal tt,
          {| this := set_answerHistory [] (this w);
             localStorage := localStorage w;
             effects := effects w
                        ++ [ConsoleError [LStr "Failed to load history from local storage";
                                          LExn e]] |})).
Proof.
  unfold loadHistoryFromLocalStorage, try_catch, localStorage_getItem.
  rewrite bind_run.
  destruct (items (localStorage w) !! historyKey) as [text|];
    [|left; reflexivity].
  destruct (isEmptyString text); [left; reflexivity|].
  unfold JSON_parse_call. rewrite bind_run.
  destruct (JSON_parse text) as [v rest| |].
  - cbn [mret M_ret]. rewrite bind_run. unfold typedHistory.
    destruct v as [|b|z|s|l|m];
      try (right; right; right; exists TypeError; reflexivity).
    destruct (walkElements l) as [|h|].
    + right; right; right. exists TypeError. reflexivity.
    + right; right; left. exists h. reflexivity.
    + right; left. reflexivity.
  - right; right; right. exists SyntaxError. reflexivity.
  - right; left. reflexivity.
Qed.


Lemma walkElements_throws (l : list json) :
  Exists (fun v => isPrimitive v = true) l -> walkElements l = WThrows.
Proof.
  induction 1 as [v l Hv | v l _ IH]; cbn [walkElements].
  - destruct v; try discriminate Hv; reflexivity.
  - rewrite IH. now destruct (visitElement v).
Qed.

(** X2.  A stored text that is valid JSON but no array -- or an array with
    [null], a boolean, a number or a string among its elements -- is
    dropped like a damaged one: the [TypeError] of the walk is caught and
    logged, the history in memory becomes empty, storage is not touched. *)
Theorem load_drops_what_is_no_list_of_objects (w : World) (blob : string) (v : json) (rest : string) :
  items (localStorage w) !! historyKey = Some blob ->
  JSON_parse blob = POk v rest ->
  (forall l, v = JArr l -> Exists (fun x => isPrimitive x = true) l) ->
  loadHistoryFromLocalStorage w =
  (Normal tt,
   {| this := set_answerHistory [] (this w);
      localStorage := localStorage w;
      effects := effects w
                 ++ [ConsoleError [LStr "Failed to load history from local storage";
                                   LExn TypeError]] |}).
Proof.
  intros Hget Hparse Hv.
  assert (isEmptyString blob = false) as Hne.
  { destruct blob; [discriminate Hparse | reflexivity]. }
  unfold loadHistoryFromLocalStorage, try_catch, localStorage_getItem.
  rewrite bind_run, Hget, Hne. unfold JSON_parse_call. rewrite bind_run, Hparse.
  cbn [mret M_ret]. rewrite bind_run. unfold typedHistory.
  destruct v as [|b|z|s|l|m]; try reflexivity.
  now rewrite (walkElements_throws l (Hv l eq_refl)).
Qed.

(** X2 at a stored array of one number. *)
Lemma load_drops_what_is_no_list_of_objects_witness :
  items (localStorage (freshWorld strayStorage)) !! historyKey = Some "[1]"
  /\ JSON_parse "[1]" = POk (JArr [JNum 1]) ""
  /\ (forall l, JArr [JNum 1] = JArr l -> Exists (fun x => isPrimitive x = true) l)
  /\ loadHistoryFromLocalStorage (freshWorld strayStorage) =
     (Normal tt,
      {| this := set_answerHistory [] newAppComponent;
         localStorage := strayStorage;
         effects := [ConsoleError [LStr "Failed to load history from local storage";
                                   LExn TypeError]] |}).
Proof.
  assert (forall l, JArr [JNum 1] = JArr l -> Exists (fun x => isPrimitive x = true) l) as H3.
  { intros l [= <-]. apply Exists_cons_hd. reflexivity. }
  split; [reflexivity|]. split; [vm_compute; reflexivity|]. split; [exact H3|].
  apply (load_drops_what_is_no_list_of_objects (freshWorld strayStorage) "[1]"
           (JArr [JNum 1]) "").
  - reflexivity.
  - vm_compute; reflexivity.
  - exact H3.
Defined.

(** X3.  [saveHistoryToLocalStorage()] always ends normally and changes no
    field of the component.  Either the area took the write -- then the
    key holds a text that [JSON.parse] reads as the history in memory -- or
    it refused, and the stored items are what they were.  No other key is
    touched, and one line goes to the console. *)
Theorem save_writes_the_history_or_nothing (w : World) :
  exists w' line,
    saveHistoryToLocalStorage w = (Normal tt, w')
    /\ this w' = this w
    /\ accepts (localStorage w') = accepts (localStorage w)
    /\ effects w' = effects w ++ [line]
    /\ isConsoleLine line
    /\ (forall key, key <> historyKey ->
          items (localStorage w') !! key = items (localStorage w) !! key)
    /\ ((exists text,
            items (localStorage w') !! historyKey = Some text
            /\ JSON_parse text = POk (historyToJson (answerHistory (this w))) "")
        \/ items (localStorage w') = items (localStorage w)).
Proof.
  destruct (accepts (localStorage w) historyKey
              (JSON_stringify (historyToJson (answerHistory (this w))))) eqn:Hacc.
  - rewrite (save_accepted w Hacc). eexists _, _.
    split; [reflexivity|]. repeat split.
    + intros key Hkey. cbn [localStorage items]. now apply lookup_insert_ne.
    + left. eexists. split; [apply lookup_insert_eq | apply JSON_parse_stringify].
  - rewrite (save_refused w Hacc). eexists _, _.
    split; [reflexivity|]. repeat split. now right.
Qed.

Lemma orElse_not_empty (f : Field) (fallback : string) :
  fallback <> "" -> orElse f fallback <> "".
Proof.
  intros H. destruct f as [| | | |s]; try exact H.
  simpl. destruct (String.eqb_spec s ""); assumption.
Qed.

(** X4.  The [next] callback of the status check.  [apiStatus] becomes
    [Ready] exactly when the [status] field is the string [ready], and
    [Not Ready] otherwise; with [Ready] the error message is emptied,
    otherwise it is the [message] of the response or a default text, never
    empty.  Afterwards the button is enabled exactly when the status was
    [ready] and no submission is loading.  Nothing else changes. *)
Theorem status_response_sets_status_and_message (response : StatusResponse.t) (w : World) :
  exists w',
    checkApiStatus_next response w = (Normal tt, w')
    /\ (StatusResponse.status response = FText "ready" ->
        apiStatus (this w') = "Ready" /\ errorMessage (this w') = "")
    /\ (StatusResponse.status response <> FText "ready" ->
        apiStatus (this w') = "Not Ready"
        /\ errorMessage (this w') = orElse (StatusResponse.message response) "API is not ready."
        /\ errorShown (this w') = true)
    /\ (getAnswerDisabled (this w') = false <->
        StatusResponse.status response = FText "ready" /\ isLoading (this w) = false)
    /\ this w' = set_errorMessage (errorMessage (this w'))
                   (set_apiStatus (apiStatus (this w')) (this w))
    /\ localStorage w' = localStorage w
    /\ effects w' = effects w.
Proof.
  assert (strictEquals (StatusResponse.status response) "ready" = true
          <-> StatusResponse.status response = FText "ready") as Hiff.
  { destruct (StatusResponse.status response) as [| | | |s]; simpl;
      try (split; discriminate).
    rewrite String.eqb_eq. split; [now intros -> | now intros [= ->]]. }
  unfold checkApiStatus_next. rewrite bind_run. cbn [assign].
  destruct (strictEquals (StatusResponse.status response) "ready") eqn:E; cbn [negb].
  - assert (StatusResponse.status response = FText "ready") as Hr
      by (apply Hiff; reflexivity).
    eexists. split; [reflexivity|]. cbn.
    split; [intros _; split; reflexivity|].
    split; [intros H; now destruct (H Hr)|].
    split; [|repeat split].
    unfold getAnswerDisabled. cbn. rewrite orb_false_r. split.
    + intros H. now split.
    + now intros [_ H].
  - assert (StatusResponse.status response <> FText "ready") as Hne
      by (intros H; apply Hiff in H; discriminate H).
    eexists. split; [reflexivity|]. cbn.
    split; [intros H; now destruct (Hne H)|].
    split.
    { intros _. split; [reflexivity|]. split; [reflexivity|].
      unfold errorShown, isEmptyString. cbn. apply negb_true_iff, String.eqb_neq.
      now apply orElse_not_empty. }
    split; [|repeat split].
    unfold getAnswerDisabled. cbn. rewrite orb_true_r. split.
    + discriminate.
    + intros [H _]. now destruct (Hne H).
Qed.

(** X4 at a backend that reports [ready]. *)
Lemma status_response_sets_status_and_message_witness :
  StatusResponse.status statusReady = FText "ready"
  /\ exists w',
       checkApiStatus_next statusReady (freshWorld roomyStorage) = (Normal tt, w')
       /\ apiStatus (this w') = "Ready"
       /\ errorMessage (this w') = ""
       /\ getAnswerDisabled (this w') = false.
Proof.
  split; [reflexivity|].
  destruct (status_response_sets_status_and_message statusReady (freshWorld roomyStorage))
    as (w' & H & Hready & _ & Hbutton & _).
  exists w'. split; [exact H|].
  destruct (Hready eq_refl) as [Hs Hm].
  split; [exact Hs|]. split; [exact Hm|].
  apply Hbutton. split; reflexivity.
Defined.

(** X5.  The [error] callback of the status check: [apiStatus] is [Error],
    a message is shown, the button is disabled whatever [isLoading] is,
    one error line goes to the console, and nothing else changes. *)
Theorem status_failure_disables_the_button (err : HttpErrorResponse) (w : World) :
  exists w',
    checkApiStatus_error err w = (Normal tt, w')
    /\ apiStatus (this w') = "Error"
    /\ errorShown (this w') = true
    /\ getAnswerDisabled (this w') = true
    /\ this w' = set_errorMessage (errorMessage (this w')) (set_apiStatus "Error" (this w))
    /\ localStorage w' = localStorage w
    /\ effects w' = effects w ++ [ConsoleError [LStr "API Status Check Error:"; LHttp err]].
Proof.
  eexists. split; [reflexivity|]. cbn. repeat split.
  unfold getAnswerDisabled. cbn. apply orb_true_r.
Qed.

(** X6.  [sendQuestion()] sends a request exactly when the question has a
    character that is not white space.  The query is then the question as
    it stands, not trimmed; it is the only effect, [isLoading] is raised,
    the answer, time and message are emptied (so the answer panel shows,
    empty, while loading), and the input keeps its text. *)
Theorem question_is_sent_iff_not_blank (w : World) :
  exists w',
    sendQuestion w = (Normal tt, w')
    /\ (allWhiteSpace (question (this w)) = false ->
        effects w' = effects w
                     ++ [HttpPost askUrl (JObj [("query", JStr (question (this w)))])]
        /\ isLoading (this w') = true
        /\ answer (this w') = "" /\ inferenceTime (this w') = ""
        /\ errorMessage (this w') = ""
        /\ answerPanelShown (this w') = true)
    /\ (allWhiteSpace (question (this w)) = true -> effects w' = effects w)
    /\ question (this w') = question (this w)
    /\ answerHistory (this w') = answerHistory (this w)
    /\ filteredHistory (this w') = filteredHistory (this w)
    /\ localStorage w' = localStorage w.
Proof.
  destruct (allWhiteSpace (question (this w))) eqn:E.
  - assert (isEmptyString (trim (question (this w))) = true) as Hb
      by now rewrite (trim_allWhiteSpace _ E).
    rewrite (sendQuestion_blank w Hb). eexists. split; [reflexivity|].
    repeat split; discriminate.
  - assert (isEmptyString (trim (question (this w))) = false) as Hb.
    { apply isEmptyString_false. intros H. apply trim_empty_iff in H. congruence. }
    rewrite (sendQuestion_submits w Hb). eexists. split; [reflexivity|].
    repeat split; discriminate.
Qed.

(** X6 at a question of three spaces. *)
Lemma question_is_sent_iff_not_blank_witness :
  allWhiteSpace (question (this worldBlankQuestion)) = true
  /\ exists w',
       sendQuestion worldBlankQuestion = (Normal tt, w')
       /\ effects w' = effects worldBlankQuestion.
Proof.
  split; [reflexivity|].
  destruct (question_is_sent_iff_not_blank worldBlankQuestion) as (w' & H & _ & Hblank & _).
  exists w'. split; [exact H|]. apply Hblank. reflexivity.
Defined.

(** The [next] callback where the storage area refuses the write. *)
Lemma sendQuestion_next_refused localeCompare currentQuestion now response (w : World) :
  accepts (localStorage w) historyKey
          (JSON_stringify (historyToJson
             (answerHistory (this w) ++ [newHistoryItem currentQuestion now response]))) = false ->
  sendQuestion_next localeCompare currentQuestion now response w =
  (Normal tt,
   {| this :=
        set_question ""
          (set_filteredHistory
             (historyView localeCompare (currentSort (this w))
                (answerHistory (this w) ++ [newHistoryItem currentQuestion now response]))
             (set_answerHistory
                (answerHistory (this w) ++ [newHistoryItem currentQuestion now response])
                (set_isLoading false
                   (set_inferenceTime
                      (orElse (AskResponse.inference_time response) "N/A")
                      (set_answer (orElse (AskResponse.answer response) "No answer received.")
                                  (this w))))));
      localStorage := localStorage w;
      effects := effects w
                 ++ [ConsoleError [LStr "Failed to save history to local storage";
                                   LExn QuotaExceededError]] |}).
Proof.
  intros H.
  unfold sendQuestion_next, sendQuestion_next_stmts, block, answerHistory_push.
  repeat (rewrite bind_run; cbn [get assign]).
  rewrite save_refused by exact H.
  reflexivity.
Qed.

(** X7.  After the [next] callback of a submission the page is idle again:
    [isLoading] is false, the input is empty, the answer and the time shown
    are never empty (so the answer panel and the time line show), the error
    message is what it was, and the view is the history, new record
    included, sorted by the mode selected: one record longer than before. *)
Theorem answer_arrives_and_page_goes_idle
    (localeCompare : string -> string -> Z) (currentQuestion : string) (now : Z)
    (response : AskResponse.t) (w : World) :
  exists w',
    sendQuestion_next localeCompare currentQuestion now response w = (Normal tt, w')
    /\ isLoading (this w') = false
    /\ question (this w') = ""
    /\ answer (this w') <> ""
    /\ inferenceTime (this w') <> ""
    /\ answerPanelShown (this w') = true
    /\ inferenceTimeShown (this w') = true
    /\ errorMessage (this w') = errorMessage (this w)
    /\ apiStatus (this w') = apiStatus (this w)
    /\ currentSort (this w') = currentSort (this w)
    /\ filteredHistory (this w')
       = historyView localeCompare (currentSort (this w')) (answerHistory (this w'))
    /\ In (newHistoryItem currentQuestion now response) (filteredHistory (this w'))
    /\ length (filteredHistory (this w')) = S (length (answerHistory (this w)))
    /\ historyListShown (this w') = true.
Proof.
  destruct (sendQuestion_next_fields localeCompare currentQuestion now response w)
    as (w' & Hrun & Hthis).
  exists w'. split; [exact Hrun|]. rewrite Hthis. cbn.
  assert (orElse (AskResponse.answer response) "No answer received." <> "") as Ha
    by (apply orElse_not_empty; discriminate).
  assert (orElse (AskResponse.inference_time response) "N/A" <> "") as Hi
    by (apply orElse_not_empty; discriminate).
  pose proof (historyView_Permutation localeCompare (currentSort (this w))
                (answerHistory (this w) ++ [newHistoryItem currentQuestion now response]))
    as Hperm.
  assert (length (historyView localeCompare (currentSort (this w))
                    (answerHistory (this w) ++ [newHistoryItem currentQuestion now response]))
          = S (length (answerHistory (this w)))) as Hlen.
  { rewrite (Permutation_length Hperm), length_app. simpl. lia. }
  repeat split; try assumption.
  - unfold answerPanelShown, isEmptyString. cbn.
    apply String.eqb_neq in Ha. now rewrite Ha.
  - unfold inferenceTimeShown, isEmptyString. cbn.
    apply String.eqb_neq in Hi. now rewrite Hi.
  - apply (Permutation_in _ (Permutation_sym Hperm)).
    apply in_or_app. right. now left.
  - unfold historyListShown. cbn. rewrite Hlen. reflexivity.
Qed.

(** X8.  A submission that fails.  The answer shown before it is gone (the
    submission had emptied it), the answer panel is hidden, the error
    message shows, and the question is still in the input, ready to be
    sent again; history, view and storage are what they were. *)
Theorem failed_submission_hides_the_answer_and_keeps_the_input
    (err : HttpErrorResponse) (w : World) :
  allWhiteSpace (question (this w)) = false ->
  exists w1 w2,
    sendQuestion w = (Normal tt, w1)
    /\ sendQuestion_error err w1 = (Normal tt, w2)
    /\ answer (this w2) = ""
    /\ answerPanelShown (this w2) = false
    /\ errorShown (this w2) = true
    /\ question (this w2) = question (this w)
    /\ answerHistory (this w2) = answerHistory (this w)
    /\ filteredHistory (this w2) = filteredHistory (this w)
    /\ localStorage w2 = localStorage w.
Proof.
  intros E.
  assert (isEmptyString (trim (question (this w))) = false) as Hb.
  { apply isEmptyString_false. intros H. apply trim_empty_iff in H. congruence. }
  rewrite (sendQuestion_submits w Hb). eexists _, _.
  split; [reflexivity|]. split; [reflexivity|]. repeat split.
Qed.

(** X8 at the page with the question typed. *)
Lemma failed_submission_hides_the_answer_and_keeps_the_input_witness :
  allWhiteSpace (question (this worldBackendDown)) = false
  /\ exists w1 w2,
       sendQuestion worldBackendDown = (Normal tt, w1)
       /\ sendQuestion_error {| http_status := 500; http_statusText := "Internal Server Error" |}
                             w1 = (Normal tt, w2)
       /\ answer (this w2) = ""
       /\ answerPanelShown (this w2) = false
       /\ errorShown (this w2) = true
       /\ question (this w2) = question (this worldBackendDown)
       /\ answerHistory (this w2) = answerHistory (this worldBackendDown)
       /\ filteredHistory (this w2) = filteredHistory (this worldBackendDown)
       /\ localStorage w2 = localStorage worldBackendDown.
Proof.
  split; [reflexivity|].
  apply (failed_submission_hides_the_answer_and_keeps_the_input _ worldBackendDown).
  reflexivity.
Defined.

(* ================================================================== *)
(** * Proofs: the other orders of the view *)
(* ================================================================== *)

(** X9.  Oldest first, the timestamps of the view never go down.  In the
    two alphabetical modes each record of the view compares, by
    [localeCompare] on the questions, not after the next one (A-Z) or not
    before it (Z-A) -- on a host whose [localeCompare] never puts two texts
    each after the other. *)
Theorem view_is_in_order_in_the_other_modes
    (localeCompare : string -> string -> Z) (w w' : World) :
  (forall a b, 0 < localeCompare a b -> localeCompare b a <= 0) ->
  applySortingAndFiltering localeCompare w = (Normal tt, w') ->
  (currentSort (this w) = time_asc ->
   Sorted (fun a b => AnswerHistoryItem.timestamp a <= AnswerHistoryItem.timestamp b)
          (filteredHistory (this w')))
  /\ (currentSort (this w) = alpha_asc ->
      Sorted (fun a b => localeCompare (AnswerHistoryItem.question a)
                                       (AnswerHistoryItem.question b) <= 0)
             (filteredHistory (this w')))
  /\ (currentSort (this w) = alpha_desc ->
      Sorted (fun a b => localeCompare (AnswerHistoryItem.question b)
                                       (AnswerHistoryItem.question a) <= 0)
             (filteredHistory (this w'))).
Proof.
  intros Hlc. rewrite applySortingAndFiltering_run. intros [= <-]. cbn.
  repeat split; intros ->; cbn; apply Array_sort_Sorted; intros a b H;
    first [lia | exact H | now apply Hlc].
Qed.

Lemma codeUnitCompare_flip (a b : string) :
  0 < codeUnitCompare a b -> codeUnitCompare b a <= 0.
Proof.
  unfold codeUnitCompare. rewrite (String.compare_antisym a b).
  destruct (String.compare b a); simpl; lia.
Qed.

(** X9 at the collation by code units, on the records A, B. *)
Lemma view_is_in_order_in_the_other_modes_witness :
  (forall a b, 0 < codeUnitCompare a b -> codeUnitCompare b a <= 0)
  /\ applySortingAndFiltering codeUnitCompare (worldAB alpha_desc)
     = (Normal tt, snd (applySortingAndFiltering codeUnitCompare (worldAB alpha_desc)))
  /\ Sorted (fun a b => codeUnitCompare (AnswerHistoryItem.question b)
                                        (AnswerHistoryItem.question a) <= 0)
            (filteredHistory
               (this (snd (applySortingAndFiltering codeUnitCompare (worldAB alpha_desc))))).
Proof.
  split; [exact codeUnitCompare_flip|]. split; [reflexivity|].
  apply (view_is_in_order_in_the_other_modes codeUnitCompare (worldAB alpha_desc) _
           codeUnitCompare_flip eq_refl).
  reflexivity.
Defined.

(** X10.  In the two time modes, records with the same timestamp stand in
    the view in the order they have in [answerHistory]. *)
Theorem ties_keep_their_order_in_time_modes
    (localeCompare : string -> string -> Z) (w w' : World) (t : Z) :
  currentSort (this w) = time_desc \/ currentSort (this w) = time_asc ->
  applySortingAndFiltering localeCompare w = (Normal tt, w') ->
  List.filter (fun x => AnswerHistoryItem.timestamp x =? t) (filteredHistory (this w'))
  = List.filter (fun x => AnswerHistoryItem.timestamp x =? t) (answerHistory (this w)).
Proof.
  intros Hmode. rewrite applySortingAndFiltering_run. intros [= <-]. cbn.
  set (probe := AnswerHistoryItem.mk "" "" "" t).
  destruct Hmode as [-> | ->]; cbn.
  - rewrite (List.filter_ext _
               (fun x => AnswerHistoryItem.timestamp x - AnswerHistoryItem.timestamp probe =? 0))
      by (intros x; cbn; destruct (Z.eqb_spec (AnswerHistoryItem.timestamp x) t);
          symmetry; [apply Z.eqb_eq | apply Z.eqb_neq]; lia).
    rewrite (List.filter_ext (fun x => AnswerHistoryItem.timestamp x =? t)
               (fun x => AnswerHistoryItem.timestamp x - AnswerHistoryItem.timestamp probe =? 0))
      by (intros x; cbn; destruct (Z.eqb_spec (AnswerHistoryItem.timestamp x) t);
          symmetry; [apply Z.eqb_eq | apply Z.eqb_neq]; lia).
    apply (filter_rank_Array_sort
             (fun a b => AnswerHistoryItem.timestamp b - AnswerHistoryItem.timestamp a));
      intros; lia.
  - rewrite (List.filter_ext _
               (fun x => AnswerHistoryItem.timestamp probe - AnswerHistoryItem.timestamp x =? 0))
      by (intros x; cbn; destruct (Z.eqb_spec (AnswerHistoryItem.timestamp x) t);
          symmetry; [apply Z.eqb_eq | apply Z.eqb_neq]; lia).
    rewrite (List.filter_ext (fun x => AnswerHistoryItem.timestamp x =? t)
               (fun x => AnswerHistoryItem.timestamp probe - AnswerHistoryItem.timestamp x =? 0))
      by (intros x; cbn; destruct (Z.eqb_spec (AnswerHistoryItem.timestamp x) t);
          symmetry; [apply Z.eqb_eq | apply Z.eqb_neq]; lia).
    apply (filter_rank_Array_sort
             (fun a b => AnswerHistoryItem.timestamp a - AnswerHistoryItem.timestamp b));
      intros; lia.
Qed.

(** X10 on the records A and B, newest first. *)
Lemma ties_keep_their_order_in_time_modes_witness :
  (currentSort (this (worldAB time_desc)) = time_desc
   \/ currentSort (this (worldAB time_desc)) = time_asc)
  /\ applySortingAndFiltering codeUnitCompare (worldAB time_desc)
     = (Normal tt, snd (applySortingAndFiltering codeUnitCompare (worldAB time_desc)))
  /\ List.filter (fun x => AnswerHistoryItem.timestamp x =? 100)
       (filteredHistory
          (this (snd (applySortingAndFiltering codeUnitCompare (worldAB time_desc)))))
     = List.filter (fun x => AnswerHistoryItem.timestamp x =? 100)
         (answerHistory (this (worldAB time_desc))).
Proof.
  split; [left; reflexivity|]. split; [reflexivity|].
  apply (ties_keep_their_order_in_time_modes codeUnitCompare (worldAB time_desc) _ 100).
  - left; reflexivity.
  - reflexivity.
Defined.

(* ================================================================== *)
(** * Proofs: the start of the page and the controls *)
(* ================================================================== *)

Lemma checkApiStatus_run (w : World) :
  checkApiStatus w =
  (Normal tt,
   {| this := set_apiStatus "Checking..." (this w);
      localStorage := localStorage w;
      effects := effects w ++ [HttpGet (ApiService.apiUrl +:+ "/status")] |}).
Proof. reflexivity. Qed.

Lemma ngOnInit_run localeCompare (w : World) :
  ngOnInit localeCompare w =
  match loadHistoryFromLocalStorage (snd (checkApiStatus w)) with
  | (Normal _, w2) => applySortingAndFiltering localeCompare w2
  | (Throws e, w2) => (Throws e, w2)
  | (Unmodelled, w2) => (Unmodelled, w2)
  end.
Proof.
  unfold ngOnInit. rewrite bind_run, checkApiStatus_run. cbn [snd].
  rewrite bind_run.
  destruct (loadHistoryFromLocalStorage _) as [[[]| |] w2]; reflexivity.
Qed.

(** X11.  The start of the page over a storage area that holds the text of
    a history [h] (what an earlier visit saved).  [ngOnInit()] ends
    normally with [h] as the history and, as the view, [h] newest first:
    the sort mode is a field initialiser, not stored.  The status is
    [Checking...], so the button is disabled until the status check
    answers; the one request sent is that check; storage is not touched. *)
Theorem page_starts_with_the_saved_history_newest_first
    (localeCompare : string -> string -> Z) (st : Storage) (h : list AnswerHistoryItem.t) :
  items st !! historyKey = Some (JSON_stringify (historyToJson h)) ->
  exists w',
    ngOnInit localeCompare (freshWorld st) = (Normal tt, w')
    /\ answerHistory (this w') = h
    /\ filteredHistory (this w') = historyView localeCompare time_desc h
    /\ nonIncreasing (filteredHistory (this w'))
    /\ Permutation (filteredHistory (this w')) h
    /\ currentSort (this w') = time_desc
    /\ apiStatus (this w') = "Checking..."
    /\ getAnswerDisabled (this w') = true
    /\ localStorage w' = st
    /\ effects w'
       = [HttpGet (ApiService.apiUrl +:+ "/status");
          ConsoleLog [LStr "History loaded from local storage:";
                      LNum (Z.of_nat (length h)); LStr "items"]].
Proof.
  intros Hst. rewrite ngOnInit_run, checkApiStatus_run. cbn [snd].
  rewrite (load_stored_history h) by exact Hst.
  rewrite applySortingAndFiltering_run. eexists. split; [reflexivity|].
  cbn. repeat split.
  - apply (historyView_time_desc localeCompare).
  - apply (historyView_Permutation localeCompare time_desc).
Qed.
(** X11 at a storage area that holds the record A. *)
Lemma page_starts_with_the_saved_history_newest_first_witness :
  items (localStorage worldWithOneRecord) !! historyKey
  = Some (JSON_stringify (historyToJson [recordA]))
  /\ exists w',
       ngOnInit codeUnitCompare (freshWorld (localStorage worldWithOneRecord)) = (Normal tt, w')
       /\ answerHistory (this w') = [recordA]
       /\ filteredHistory (this w') = historyView codeUnitCompare time_desc [recordA].
Proof.
  split; [reflexivity|].
  destruct (page_starts_with_the_saved_history_newest_first codeUnitCompare
              (localStorage worldWithOneRecord) [recordA] eq_refl)
    as (w' & H1 & H2 & H3 & _).
  exists w'. repeat split; assumption.
Defined.

Lemma app_one_neq {A} (l : list A) (x : A) : l ++ [x] <> l.
Proof.
  intros H. apply (f_equal (@length A)) in H. rewrite length_app in H. simpl in H. lia.
Qed.

(** X12.  A click on [Get Answer] sends a request exactly when the status
    is [Ready], nothing is loading and the question is not blank; the
    request then carries the question as typed and [isLoading] is raised.
    While the button is disabled the click changes nothing at all. *)
Theorem click_sends_only_when_ready_and_idle
    (localeCompare : string -> string -> Z) (w : World) :
  exists w',
    dispatch localeCompare GetAnswerClick w = (Normal tt, w')
    /\ (effects w' <> effects w <->
        apiStatus (this w) = "Ready" /\ isLoading (this w) = false
        /\ allWhiteSpace (question (this w)) = false)
    /\ (effects w' <> effects w ->
        effects w' = effects w
                     ++ [HttpPost askUrl (JObj [("query", JStr (question (this w)))])]
        /\ isLoading (this w') = true)
    /\ (getAnswerDisabled (this w) = true -> w' = w).
Proof.
  destruct (getAnswerDisabled (this w)) eqn:Hd.
  - rewrite (click_on_disabled_button localeCompare w Hd). exists w.
    split; [reflexivity|]. apply getAnswerDisabled_spec in Hd.
    split; [|split; [intros H; now destruct H | reflexivity]].
    split; [intros H; now destruct H|].
    intros (Hs & Hl & _). destruct Hd as [Hd | Hd]; congruence.
  - assert (apiStatus (this w) = "Ready" /\ isLoading (this w) = false) as [Hs Hl].
    { unfold getAnswerDisabled in Hd. apply orb_false_iff in Hd as [Hl Hs].
      apply negb_false_iff, String.eqb_eq in Hs. now split. }
    assert (dispatch localeCompare GetAnswerClick w = sendQuestion w) as ->.
    { cbn [dispatch]. rewrite bind_run. cbn [get]. now rewrite Hd. }
    destruct (allWhiteSpace (question (this w))) eqn:E.
    + assert (isEmptyString (trim (question (this w))) = true) as Hb
        by now rewrite (trim_allWhiteSpace _ E).
      rewrite (sendQuestion_blank w Hb). eexists. split; [reflexivity|]. cbn.
      split; [|split; [intros H; now destruct H | discriminate]].
      split; [intros H; now destruct H | intros (_ & _ & H); discriminate H].
    + assert (isEmptyString (trim (question (this w))) = false) as Hb.
      { apply isEmptyString_false. intros H. apply trim_empty_iff in H. congruence. }
      rewrite (sendQuestion_submits w Hb). eexists. split; [reflexivity|]. cbn.
      split; [|split; [intros _; split; reflexivity | discriminate]].
      split; [intros _; repeat split; assumption | intros _; apply app_one_neq].
Qed.

(** X12 at the page with the status check failed. *)
Lemma click_sends_only_when_ready_and_idle_witness :
  getAnswerDisabled (this worldBackendDown) = true
  /\ exists w',
       dispatch codeUnitCompare GetAnswerClick worldBackendDown = (Normal tt, w')
       /\ w' = worldBackendDown.
Proof.
  split; [reflexivity|].
  destruct (click_sends_only_when_ready_and_idle codeUnitCompare worldBackendDown)
    as (w' & H & _ & _ & Hdisabled).
  exists w'. split; [exact H|]. apply Hdisabled. reflexivity.
Defined.

(** X13.  Choosing a mode in the select (the model is written, then
    [(change)] runs [applySortingAndFiltering()]) leaves the view as the
    history sorted by the mode chosen; the history, the storage and the
    trace of effects are what they were -- the mode is not saved.  Were
    [(change)] to run before the model is written, the view would be
    sorted by the mode selected before. *)
Theorem choosing_a_sort_mode_reorders_the_view_only
    (localeCompare : string -> string -> Z) (mode : SortMode) (w : World) :
  (exists w1 w2,
      dispatch localeCompare (SortSelect mode) w = (Normal tt, w1)
      /\ dispatch localeCompare SortChange w1 = (Normal tt, w2)
      /\ currentSort (this w2) = mode
      /\ filteredHistory (this w2) = historyView localeCompare mode (answerHistory (this w))
      /\ answerHistory (this w2) = answerHistory (this w)
      /\ localStorage w2 = localStorage w
      /\ effects w2 = effects w)
  /\ (exists w1 w2,
         dispatch localeCompare SortChange w = (Normal tt, w1)
         /\ dispatch localeCompare (SortSelect mode) w1 = (Normal tt, w2)
         /\ currentSort (this w2) = mode
         /\ filteredHistory (this w2)
            = historyView localeCompare (currentSort (this w)) (answerHistory (this w))).
Proof.
  split.
  - eexists _, _. split; [reflexivity|]. cbn [dispatch].
    rewrite applySortingAndFiltering_run. split; [reflexivity|]. cbn. repeat split.
  - eexists _, _. cbn [dispatch]. rewrite applySortingAndFiltering_run.
    split; [reflexivity|]. split; [reflexivity|]. cbn. repeat split.
Qed.

Lemma itemToJson_inj (a b : AnswerHistoryItem.t) : itemToJson a = itemToJson b -> a = b.
Proof. destruct a, b. unfold itemToJson. cbn. now intros [= -> -> -> ->]. Qed.

Lemma historyToJson_inj (h1 h2 : list AnswerHistoryItem.t) :
  historyToJson h1 = historyToJson h2 -> h1 = h2.
Proof.
  unfold historyToJson. intros [= H]. revert h2 H.
  induction h1 as [|a h1 IH]; intros [|b h2] H; try discriminate H; [reflexivity|].
  cbn [List.map] in H.
  assert (itemToJson a = itemToJson b) as Hab by congruence.
  assert (List.map itemToJson h1 = List.map itemToJson h2) as Hrest by congruence.
  f_equal; [exact (itemToJson_inj _ _ Hab) | exact (IH _ Hrest)].
Qed.

(** X14.  The text [saveHistoryToLocalStorage()] writes determines the
    history: two histories with the same text have the same records, with
    the same fields, in the same order. *)
Theorem saved_text_determines_the_history (h1 h2 : list AnswerHistoryItem.t) :
  JSON_stringify (historyToJson h1) = JSON_stringify (historyToJson h2) -> h1 = h2.
Proof.
  intros H. apply historyToJson_inj.
  pose proof (JSON_parse_stringify (historyToJson h1)) as P1.
  pose proof (JSON_parse_stringify (historyToJson h2)) as P2.
  rewrite H, P2 in P1.
  exact (f_equal (fun r => match r with POk v _ => v | _ => JNull end) (eq_sym P1)).
Qed.

(** X14 at the history of one record A. *)
Lemma saved_text_determines_the_history_witness :
  JSON_stringify (historyToJson [recordA]) = JSON_stringify (historyToJson [recordA])
  /\ [recordA] = [recordA].
Proof.
  split; [reflexivity|].
  apply (saved_text_determines_the_history [recordA] [recordA]). reflexivity.
Defined.

(** X15.  Once [applySortingAndFiltering()] has run, the note [No history
    available] and the list of records are never shown together and never
    both hidden; the note shows exactly when the history is empty, and
    the count in the heading is the number of records of the history. *)
Theorem empty_note_shows_iff_there_is_no_history
    (localeCompare : string -> string -> Z) (w : World) :
  exists w',
    applySortingAndFiltering localeCompare w = (Normal tt, w')
    /\ emptyNoteShown (this w') = negb (historyListShown (this w'))
    /\ (emptyNoteShown (this w') = true <-> answerHistory (this w) = [])
    /\ length (filteredHistory (this w')) = length (answerHistory (this w)).
Proof.
  rewrite applySortingAndFiltering_run. eexists. split; [reflexivity|]. cbn.
  pose proof (Permutation_length
                (historyView_Permutation localeCompare (currentSort (this w))
                   (answerHistory (this w)))) as Hlen.
  unfold emptyNoteShown, historyListShown. cbn. rewrite Hlen.
  destruct (answerHistory (this w)) as [|a l]; cbn; repeat split; try discriminate.
Qed.

(** X15 at a new component. *)
Lemma empty_note_shows_iff_there_is_no_history_witness :
  answerHistory (this (freshWorld roomyStorage)) = []
  /\ exists w',
       applySortingAndFiltering codeUnitCompare (freshWorld roomyStorage) = (Normal tt, w')
       /\ emptyNoteShown (this w') = true.
Proof.
  split; [reflexivity|].
  destruct (empty_note_shows_iff_there_is_no_history codeUnitCompare (freshWorld roomyStorage))
    as (w' & H & _ & Hnote & _).
  exists w'. split; [exact H|]. apply Hnote. reflexivity.
Defined.

(* ================================================================== *)
(** * Proofs: whatever the events *)
(* ================================================================== *)

Lemma block_cons (s : M unit) (rest : list (M unit)) (w : World) :
  block (s :: rest) w =
  match s w with
  | (Normal _, w') => block rest w'
  | (Throws e, w') => (Throws e, w')
  | (Unmodelled, w') => (Unmodelled, w')
  end.
Proof. cbn [block]. rewrite bind_run. destruct (s w) as [[[]| |] w']; reflexivity. Qed.

Lemma not_blank (s : string) :
  isEmptyString (trim s) = false -> allWhiteSpace s = false.
Proof.
  intros H. apply isEmptyString_false in H.
  destruct (allWhiteSpace s) eqn:E; [|reflexivity].
  now rewrite (trim_allWhiteSpace s E) in H.
Qed.

Lemma sendQuestion_step (w : World) :
  exists w' log,
    sendQuestion w = (Normal tt, w')
    /\ localStorage w' = localStorage w
    /\ effects w' = effects w ++ log
    /\ Forall expectedEffect log
    /\ apiStatus (this w') = apiStatus (this w)
    /\ answerHistory (this w') = answerHistory (this w)
    /\ filteredHistory (this w') = filteredHistory (this w).
Proof.
  destruct (isEmptyString (trim (question (this w)))) eqn:Hb.
  - rewrite (sendQuestion_blank w Hb). eexists _, []. rewrite app_nil_r.
    repeat split. constructor.
  - rewrite (sendQuestion_submits w Hb). eexists _, [_].
    split; [reflexivity|]. cbn. repeat split.
    constructor; [|constructor]. cbn. split; [reflexivity|].
    eexists. split; [reflexivity|]. now apply not_blank.
Qed.

(** The side conditions of one step. *)
Ltac step_side :=
  first
    [ reflexivity
    | left; reflexivity
    | right; reflexivity
    | assumption
    | apply List.Forall_nil
    | intros; assumption
    | intros; apply historyView_Permutation
    | intros; apply perm_nil
    | intros; apply lookup_insert_ne; congruence
    | intros; apply lookup_delete_ne; congruence
    | intros; unfold knownStatus; tauto
    | solve [repeat first [ apply List.Forall_nil
                          | apply List.Forall_cons; [first [exact I | reflexivity]|] ]] ].

(** One event, from any world: how it ends, what it leaves alone, what it
    sends, and what it keeps true. *)
Lemma handle_step (localeCompare : string -> string -> Z) (e : Event) (w : World) :
  exists o w' log,
    handle localeCompare e w = (o, w')
    /\ (o = Normal tt \/ o = Unmodelled)
    /\ accepts (localStorage w') = accepts (localStorage w)
    /\ (forall key, key <> historyKey ->
          items (localStorage w') !! key = items (localStorage w) !! key)
    /\ effects w' = effects w ++ log
    /\ Forall expectedEffect log
    /\ (knownStatus (apiStatus (this w)) -> knownStatus (apiStatus (this w')))
    /\ (Permutation (filteredHistory (this w)) (answerHistory (this w)) ->
        Permutation (filteredHistory (this w')) (answerHistory (this w'))).
Proof.
  destruct e as [|ev|response|err|currentQuestion now response|err]; cbn [handle].
  - (* Init *)
    rewrite ngOnInit_run, checkApiStatus_run. cbn [snd].
    match goal with
    | |- context [loadHistoryFromLocalStorage ?w1] =>
      destruct (load_cases w1) as [H | [H | [(h & H) | (x & H)]]]; rewrite H
    end; rewrite ?applySortingAndFiltering_run.
    + eexists _, _, [_]. split; [reflexivity|]. cbn. repeat split; step_side.
    + eexists _, _, [_]. split; [reflexivity|]. cbn. repeat split; step_side.
    + eexists _, _, [_; _]. split; [reflexivity|]. cbn. rewrite <- app_assoc.
      repeat split; step_side.
    + eexists _, _, [_; _]. split; [reflexivity|]. cbn. rewrite <- app_assoc.
      repeat split; step_side.
  - (* the template *)
    destruct ev as [text| | |mode| |userAccepts]; cbn [dispatch].
    + eexists _, _, []. split; [reflexivity|]. cbn. rewrite app_nil_r.
      repeat split; step_side.
    + destruct (sendQuestion_step w) as (w' & log & H & Hst & Hlog & Hexp & Hs & Ha & Hf).
      exists (Normal tt), w', log. rewrite H, Hst, Hs, Ha, Hf.
      repeat split; step_side.
    + rewrite bind_run. cbn [get]. destruct (getAnswerDisabled (this w)).
      * eexists _, _, []. split; [reflexivity|]. rewrite app_nil_r.
        repeat split; step_side.
      * destruct (sendQuestion_step w)
          as (w' & log & H & Hst & Hlog & Hexp & Hs & Ha & Hf).
        exists (Normal tt), w', log. rewrite H, Hst, Hs, Ha, Hf.
        repeat split; step_side.
    + eexists _, _, []. split; [reflexivity|]. cbn. rewrite app_nil_r.
      repeat split; step_side.
    + rewrite applySortingAndFiltering_run.
      eexists _, _, []. split; [reflexivity|]. cbn. rewrite app_nil_r.
      repeat split; step_side.
    + destruct userAccepts.
      * rewrite clearHistory_confirmed. eexists _, _, [_; _].
        split; [reflexivity|]. cbn. repeat split; step_side.
      * rewrite clearHistory_declined. eexists _, _, [_].
        split; [reflexivity|]. cbn. repeat split; step_side.
  - (* the status check answers *)
    unfold checkApiStatus_next. rewrite bind_run. cbn [assign].
    destruct (strictEquals (StatusResponse.status response) "ready"); cbn [negb].
    + eexists _, _, []. split; [reflexivity|]. cbn. rewrite app_nil_r.
      repeat split; step_side.
    + eexists _, _, []. split; [reflexivity|]. cbn. rewrite app_nil_r.
      repeat split; step_side.
  - (* the status check fails *)
    eexists _, _, [_]. split; [reflexivity|]. cbn. repeat split; step_side.
  - (* an answer arrives *)
    destruct (accepts (localStorage w) historyKey
                (JSON_stringify (historyToJson
                   (answerHistory (this w)
                    ++ [newHistoryItem currentQuestion now response])))) eqn:Hacc.
    + rewrite (sendQuestion_next_accepted localeCompare _ _ _ w Hacc).
      eexists _, _, [_]. split; [reflexivity|]. cbn. repeat split; step_side.
    + rewrite (sendQuestion_next_refused localeCompare _ _ _ w Hacc).
      eexists _, _, [_]. split; [reflexivity|]. cbn. repeat split; step_side.
  - (* a submission fails *)
    eexists _, _, [_]. split; [reflexivity|]. cbn. repeat split; step_side.
Qed.
(** A run of events, from any world. *)
Lemma handleAll_steps (localeCompare : string -> string -> Z) (es : list Event) :
  forall w, exists o w' log,
    handleAll localeCompare es w = (o, w')
    /\ (o = Normal tt \/ o = Unmodelled)
    /\ accepts (localStorage w') = accepts (localStorage w)
    /\ (forall key, key <> historyKey ->
          items (localStorage w') !! key = items (localStorage w) !! key)
    /\ effects w' = effects w ++ log
    /\ Forall expectedEffect log
    /\ (knownStatus (apiStatus (this w)) -> knownStatus (apiStatus (this w')))
    /\ (Permutation (filteredHistory (this w)) (answerHistory (this w)) ->
        Permutation (filteredHistory (this w')) (answerHistory (this w'))).
Proof.
  induction es as [|e es IH]; intros w.
  - exists (Normal tt), w, []. rewrite app_nil_r.
    repeat split; step_side.
  - unfold handleAll. cbn [List.map]. rewrite block_cons.
    destruct (handle_step localeCompare e w)
      as (o1 & w1 & log1 & H1 & Ho1 & Hacc1 & Hkeys1 & Hlog1 & Hexp1 & Hs1 & Hp1).
    rewrite H1. destruct Ho1 as [-> | ->].
    + destruct (IH w1) as (o & w' & log & H & Ho & Hacc & Hkeys & Hlog & Hexp & Hs & Hp).
      exists o, w', (log1 ++ log). fold (handleAll localeCompare es). rewrite H.
      split; [reflexivity|]. split; [exact Ho|].
      split; [congruence|].
      split; [intros key Hkey; rewrite Hkeys, Hkeys1 by exact Hkey; reflexivity|].
      split; [rewrite Hlog, Hlog1; apply eq_sym, app_assoc|].
      split; [apply List.Forall_app; now split|].
      split; [intros Hk; exact (Hs (Hs1 Hk)) | intros Hk; exact (Hp (Hp1 Hk))].
    + exists Unmodelled, w1, log1.
      repeat split; first [assumption | right; reflexivity].
Qed.


(** X17.  The page writes to one key of [localStorage] only.  Whatever
    events arrive, every other key holds what it held (or is as absent as
    it was). *)
Theorem only_the_history_key_is_ever_written
    (localeCompare : string -> string -> Z) (es : list Event) (w : World) (key : string) :
  key <> historyKey ->
  items (localStorage (snd (handleAll localeCompare es w))) !! key
  = items (localStorage w) !! key.
Proof.
  intros Hkey.
  destruct (handleAll_steps localeCompare es w) as (o & w' & log & H & _ & _ & Hkeys & _).
  rewrite H. cbn [snd]. now apply Hkeys.
Qed.

(** X17 at a key of another feature, over a start and a
    confirmed clear. *)
Lemma only_the_history_key_is_ever_written_witness :
  "theme" <> historyKey
  /\ items (localStorage
              (snd (handleAll codeUnitCompare [Init; Dom (ClearAllClick true)]
                      worldWithOneRecord))) !! "theme"
     = items (localStorage worldWithOneRecord) !! "theme".
Proof.
  assert ("theme" <> historyKey) as H by discriminate.
  split; [exact H|].
  apply (only_the_history_key_is_ever_written codeUnitCompare
           [Init; Dom (ClearAllClick true)] worldWithOneRecord "theme" H).
Defined.

(** X18.  The requests the page sends.  Whatever events arrive, every GET
    added to the trace goes to [/status], and every POST goes to [/ask]
    with a body of one member, [query], whose text has a character that
    is no white space: a blank question is never sent, by the button or
    by the Enter key. *)
Theorem every_request_is_the_status_check_or_a_question_that_is_not_blank
    (localeCompare : string -> string -> Z) (es : list Event) (w : World) :
  exists log,
    effects (snd (handleAll localeCompare es w)) = effects w ++ log
    /\ Forall expectedEffect log.
Proof.
  destruct (handleAll_steps localeCompare es w)
    as (o & w' & log & H & _ & _ & _ & Hlog & Hexp & _).
  exists log. rewrite H. now split.
Qed.

(** X19.  [apiStatus] only ever holds one of four texts: [Checking...],
    [Ready], [Not Ready], [Error] -- from the start of the component and
    whatever events follow. *)
Theorem status_is_always_one_of_four_texts
    (localeCompare : string -> string -> Z) (es : list Event) (st : Storage) :
  knownStatus (apiStatus (this (snd (handleAll localeCompare es (freshWorld st))))).
Proof.
  destruct (handleAll_steps localeCompare es (freshWorld st))
    as (o & w' & log & H & _ & _ & _ & _ & _ & Hs & _).
  rewrite H. apply Hs. left. reflexivity.
Qed.

(** X20.  Between events the view always holds the records of the history,
    each as often, in some order: no handler leaves the two apart, from
    the start of the component on.  ([clearHistory()] empties both,
    the [next] callback re-sorts after its push, [ngOnInit()] after its
    load.) *)
Theorem view_always_holds_the_records_of_the_history
    (localeCompare : string -> string -> Z) (es : list Event) (st : Storage) :
  exists o w',
    handleAll localeCompare es (freshWorld st) = (o, w')
    /\ Permutation (filteredHistory (this w')) (answerHistory (this w')).
Proof.
  destruct (handleAll_steps localeCompare es (freshWorld st))
    as (o & w' & log & H & _ & _ & _ & _ & _ & _ & Hp).
  exists o, w'. split; [exact H|]. apply Hp. apply perm_nil.
Qed.

(** ** Storage and memory in step *)

Lemma storeInStep_same (w w' : World) :
  localStorage w' = localStorage w ->
  answerHistory (this w') = answerHistory (this w) ->
  storeInStep w -> storeInStep w'.
Proof. unfold storeInStep. now intros -> ->. Qed.

(** The start of the component over a readable storage area. *)
Lemma ngOnInit_storeInStep (localeCompare : string -> string -> Z) (w : World) :
  (items (localStorage w) !! historyKey = None /\ answerHistory (this w) = []
   \/ exists h, items (localStorage w) !! historyKey
                = Some (JSON_stringify (historyToJson h))) ->
  exists w',
    ngOnInit localeCompare w = (Normal tt, w')
    /\ storeInStep w'
    /\ localStorage w' = localStorage w.
Proof.
  intros Hst. rewrite ngOnInit_run, checkApiStatus_run. cbn [snd].
  destruct Hst as [[Hnone Hempty] | [h Hsome]].
  - rewrite load_absent by exact Hnone. rewrite applySortingAndFiltering_run.
    eexists. split; [reflexivity|]. split; [|reflexivity].
    unfold storeInStep. cbn. now rewrite Hnone.
  - rewrite (load_stored_history h) by exact Hsome.
    rewrite applySortingAndFiltering_run.
    eexists. split; [reflexivity|]. split; [|reflexivity].
    unfold storeInStep. cbn. now rewrite Hsome.
Qed.

(** One event where the area takes every write. *)
Lemma handle_storeInStep (localeCompare : string -> string -> Z) (e : Event) (w : World) :
  takesEveryWrite (localStorage w) ->
  storeInStep w ->
  exists w',
    handle localeCompare e w = (Normal tt, w')
    /\ storeInStep w'
    /\ takesEveryWrite (localStorage w').
Proof.
  intros Htakes Hstep.
  destruct e as [|ev|response|err|currentQuestion now response|err]; cbn [handle].
  - destruct (ngOnInit_storeInStep localeCompare w) as (w' & H & Hs & Hl).
    { unfold storeInStep in Hstep.
      destruct (items (localStorage w) !! historyKey) as [blob|].
      - right. exists (answerHistory (this w)). now rewrite Hstep.
      - left. now split. }
    exists w'. rewrite Hl. now repeat split.
  - destruct ev as [text| | |mode| |userAccepts]; cbn [dispatch].
    + eexists. split; [reflexivity|]. split; [|exact Htakes].
      now apply (storeInStep_same w).
    + destruct (sendQuestion_step w) as (w' & log & H & Hst & _ & _ & _ & Ha & _).
      exists w'. rewrite Hst. split; [exact H|]. split; [|exact Htakes].
      now apply (storeInStep_same w).
    + rewrite bind_run. cbn [get]. destruct (getAnswerDisabled (this w)).
      * exists w. now repeat split.
      * destruct (sendQuestion_step w) as (w' & log & H & Hst & _ & _ & _ & Ha & _).
        exists w'. rewrite Hst. split; [exact H|]. split; [|exact Htakes].
        now apply (storeInStep_same w).
    + eexists. split; [reflexivity|]. split; [|exact Htakes].
      now apply (storeInStep_same w).
    + rewrite applySortingAndFiltering_run.
      eexists. split; [reflexivity|]. split; [|exact Htakes].
      now apply (storeInStep_same w).
    + destruct userAccepts.
      * rewrite clearHistory_confirmed. eexists. split; [reflexivity|].
        split; [|exact Htakes].
        unfold storeInStep. cbn. now rewrite lookup_delete_eq.
      * rewrite clearHistory_declined. eexists. split; [reflexivity|].
        split; [|exact Htakes]. now apply (storeInStep_same w).
  - unfold checkApiStatus_next. rewrite bind_run. cbn [assign].
    destruct (strictEquals (StatusResponse.status response) "ready"); cbn [negb];
      (eexists; split; [reflexivity|]; split; [|exact Htakes];
       now apply (storeInStep_same w)).
  - eexists. split; [reflexivity|]. split; [|exact Htakes].
    now apply (storeInStep_same w).
  - rewrite (sendQuestion_next_accepted localeCompare _ _ _ w (Htakes _ _)).
    eexists. split; [reflexivity|]. split; [|exact Htakes].
    unfold storeInStep. cbn. now rewrite lookup_insert_eq.
  - eexists. split; [reflexivity|]. split; [|exact Htakes].
    now apply (storeInStep_same w).
Qed.

Lemma handleAll_storeInStep (localeCompare : string -> string -> Z) (es : list Event) :
  forall w,
    takesEveryWrite (localStorage w) ->
    storeInStep w ->
    exists w',
      handleAll localeCompare es w = (Normal tt, w')
      /\ storeInStep w'.
Proof.
  induction es as [|e es IH]; intros w Htakes Hstep.
  - exists w. now split.
  - unfold handleAll. cbn [List.map]. rewrite block_cons.
    destruct (handle_storeInStep localeCompare e w Htakes Hstep) as (w1 & H1 & Hs1 & Ht1).
    rewrite H1. exact (IH w1 Ht1 Hs1).
Qed.

Lemma storeInStep_persistedAgrees (w : World) : storeInStep w -> persistedAgrees w.
Proof.
  unfold storeInStep. intros H.
  destruct (items (localStorage w) !! historyKey) as [blob|] eqn:E.
  - apply persistedAgrees_stored. now rewrite E, H.
  - unfold persistedAgrees. rewrite (load_absent (reload w)) by exact E.
    eexists. split; [reflexivity|]. now rewrite H.
Qed.

(** X21.  Over a storage area that takes every write and holds nothing
    under the key, or the text of a history, storage and memory stay in
    step: after the start of the component, and whatever events follow,
    every handler ends normally, and the stored text is the text of the
    history in memory -- or there is none and the history is empty.  A
    page load at that point would read the same history back. *)
Theorem storage_and_memory_stay_in_step
    (localeCompare : string -> string -> Z) (es : list Event) (st : Storage) :
  takesEveryWrite st ->
  holdsSavedHistory st ->
  exists w',
    handleAll localeCompare (Init :: es) (freshWorld st) = (Normal tt, w')
    /\ storeInStep w'
    /\ persistedAgrees w'.
Proof.
  intros Htakes Hholds.
  unfold handleAll. cbn [List.map]. rewrite block_cons. cbn [handle].
  destruct (ngOnInit_storeInStep localeCompare (freshWorld st)) as (w1 & H1 & Hs1 & Hl1).
  { unfold holdsSavedHistory in Hholds. cbn [freshWorld localStorage this].
    destruct (items st !! historyKey) as [blob|].
    - right. destruct Hholds as [h ->]. now exists h.
    - left. now split. }
  rewrite H1.
  destruct (handleAll_storeInStep localeCompare es w1) as (w' & H & Hs).
  { rewrite Hl1. exact Htakes. }
  { exact Hs1. }
  exists w'. split; [exact H|]. split; [exact Hs|].
  now apply storeInStep_persistedAgrees.
Qed.

(** X21 over an empty area that takes every write: a start,
    an answer, a change of mode, a second answer. *)
Lemma storage_and_memory_stay_in_step_witness :
  takesEveryWrite roomyStorage
  /\ holdsSavedHistory roomyStorage
  /\ exists w',
       handleAll codeUnitCompare
         [Init; AskNext "A" 100 answerA; Dom (SortSelect alpha_asc); Dom SortChange;
          AskNext "B" 200 answerA]
         (freshWorld roomyStorage) = (Normal tt, w')
       /\ storeInStep w'
       /\ persistedAgrees w'.
Proof.
  assert (takesEveryWrite roomyStorage) as H1 by (intros key value; reflexivity).
  assert (holdsSavedHistory roomyStorage) as H2 by exact I.
  split; [exact H1|]. split; [exact H2|].
  apply (storage_and_memory_stay_in_step codeUnitCompare
           [AskNext "A" 100 answerA; Dom (SortSelect alpha_asc); Dom SortChange;
            AskNext "B" 200 answerA]
           roomyStorage H1 H2).
Defined.

(** ** The limit that is not applied *)

(** X22.  [historyLimit] is declared and never read.  A run of answers
    appends one record for each, in the order they arrive, however many
    there are; the field keeps its value, and the view holds every record
    of the history. *)
Theorem history_is_never_cut_to_the_limit
    (localeCompare : string -> string -> Z) (answers : list (string * Z * AskResponse.t)) :
  forall w, exists w',
    handleAll localeCompare (List.map answerEvent answers) w = (Normal tt, w')
    /\ answerHistory (this w') = answerHistory (this w) ++ List.map answerRecord answers
    /\ historyLimit (this w') = historyLimit (this w)
    /\ (answers = []
        \/ Permutation (filteredHistory (this w')) (answerHistory (this w'))).
Proof.
  induction answers as [|a answers IH]; intros w.
  - exists w. split; [reflexivity|]. cbn. rewrite app_nil_r. repeat split. now left.
  - unfold handleAll. cbn [List.map]. rewrite block_cons.
    unfold answerEvent at 1. cbn [handle].
    destruct (sendQuestion_next_fields localeCompare (fst (fst a)) (snd (fst a)) (snd a) w)
      as (w1 & H1 & Hthis).
    rewrite H1. destruct (IH w1) as (w' & H & Hh & Hl & Hp).
    exists w'. split; [exact H|].
    split; [rewrite Hh, Hthis; cbn; now rewrite <- app_assoc|].
    split; [now rewrite Hl, Hthis|]. right.
    destruct Hp as [-> | Hp]; [|exact Hp].
    cbn in H. injection H as <-. rewrite Hthis. cbn.
    apply historyView_Permutation.
Qed.
